(** * The Optax quick-start notebook (examples/quick_start.ipynb)

  The notebook trains a two-parameter linear model three times over with
  optimizers of the optax library.  The code it authors itself is the model
  ([network]), the loss ([compute_loss]), the data generation and three
  loops with four assertions.  Numbers are modelled as exact rationals
  ([Q]): rounding of the float32 runtime is outside this development. *)

From Stdlib Require Import QArith Qabs Lqa.
From stdpp Require Import gmap strings list fin_maps relations.

Local Open Scope Q_scope.

(** ** Scalars

  [jax] runs one Python function on plain numbers and on tracers; the
  model does the same with a class of scalars that has two instances,
  the rationals and the dual numbers used for differentiation. *)

Class Scalar (A : Type) := {
  sc_const : Q -> A;
  sc_add : A -> A -> A;
  sc_sub : A -> A -> A;
  sc_mul : A -> A -> A;
  sc_div : A -> A -> A
}.

#[export] Instance Q_scalar : Scalar Q := {
  sc_const q := q;
  sc_add := Qplus;
  sc_sub := Qminus;
  sc_mul := Qmult;
  sc_div := Qdiv
}.

(** A dual number is a value paired with its derivative along one
  direction. *)
Abbreviation dual := (Q * Q)%type.

#[export] Instance dual_scalar : Scalar dual := {
  sc_const q := (q, 0);
  sc_add a b := (fst a + fst b, snd a + snd b);
  sc_sub a b := (fst a - fst b, snd a - snd b);
  sc_mul a b := (fst a * fst b, snd a * fst b + fst a * snd b);
  sc_div a b := (fst a / fst b,
                 (snd a * fst b - fst a * snd b) / (fst b * fst b))
}.

(** ** The model and the loss (cell 2 of the notebook) *)

Section Model.
Context {A : Type} `{Scalar A}.

(** [jnp.dot] on two one-dimensional arrays; arrays of different lengths
    raise. *)
Fixpoint dot (a b : list A) : option A :=
  match a, b with
  | [], [] => Some (sc_const 0)
  | x :: a', y :: b' => r ← dot a' b'; Some (sc_add (sc_mul x y) r)
  | _, _ => None
  end.

(** [jnp.sum] of a one-dimensional array. *)
Definition asum (l : list A) : A := foldr sc_add (sc_const 0) l.

(** [jnp.mean].  On an empty array the library returns nan and does not
    raise; the rationals have no such value, and the model gives no result
    there. *)
Definition mean (l : list A) : option A :=
  match l with
  | [] => None
  | _ => Some (sc_div (asum l) (sc_const (inject_Z (Z.of_nat (length l)))))
  end.

(** [optax.l2_loss]: half the squared error, elementwise, on two arrays of
    one shape (broadcasting of unequal shapes is not modelled). *)
Fixpoint l2_loss (predictions targets : list A) : option (list A) :=
  match predictions, targets with
  | [], [] => Some []
  | p :: ps, t :: ts =>
      r ← l2_loss ps ts;
      let d := sc_sub p t in
      Some (sc_mul (sc_const (1 # 2)) (sc_mul d d) :: r)
  | _, _ => None
  end.

(** [network]: [jnp.dot(params, x)] mapped over the rows of [x]
    ([jax.vmap] with [in_axes=(None, 0)]). *)
Definition network (params : list A) (x : list (list A)) : option (list A) :=
  mapM (dot params) x.

Definition compute_loss (params : list A) (x : list (list A)) (y : list A)
  : option A :=
  y_pred ← network params x;
  loss ← l2_loss y_pred y;
  mean loss.
End Model.

(** ** Data generation (cell 3): [ys = jnp.sum(xs * target_params, axis=-1)] *)

Definition target_params : Q := 1 # 2.

(** Cell 4: [start_learning_rate = 1e-1] *)
Definition start_learning_rate : Q := 1 # 10.

Definition gen_ys (xs : list (list Q)) (target : Q) : list Q :=
  map (fun row => asum (map (fun v => v * target) row)) xs.

(** The shape of a two-dimensional array. *)
Definition has_shape (xs : list (list Q)) (rows cols : nat) : Prop :=
  length xs = rows /\ Forall (fun r => length r = cols) xs.

(** ** [jax.grad(compute_loss)]: the gradient in the first argument

  Forward mode: component [j] of the gradient is the derivative part of
  the loss run on dual numbers, with direction [j] seeded. *)

Definition seed (j : nat) (params : list Q) : list dual :=
  imap (fun i p => (p, if decide (i = j) then 1 else 0)) params.

Definition lift (a : list Q) : list dual := map (fun q => (q, 0)) a.

Definition grad_compute_loss (params : list Q) (x : list (list Q)) (y : list Q)
  : option (list Q) :=
  mapM (fun j => snd <$> compute_loss (seed j params) (map lift x) (lift y))
       (seq 0 (length params)).

(** The gradient in closed form, for parameters of shape (2,): along the
    direction [(e0, e1)] the derivative of the loss is the mean over the rows
    of the residual times the row's component along the direction. *)
Definition residual_along (p0 p1 e0 e1 : Q) (row : list Q) (y : Q) : Q :=
  match row with
  | [a; b] => (p0 * a + p1 * b - y) * (e0 * a + e1 * b)
  | _ => 0
  end.

Definition derivative_formula (p0 p1 e0 e1 : Q) (x : list (list Q)) (y : list Q)
  : Q :=
  asum (zip_with (residual_along p0 p1 e0 e1) x y)
  / inject_Z (Z.of_nat (length x)).

(** ** The optax library, as far as the notebook sees it

  The library is not part of the notebook.  What the notebook relies on is
  the interface of its objects; the transforms' arithmetic (Adam's moments,
  the clipping, the exponential schedule) stays abstract. *)

(** One-dimensional arrays, and the trees of arrays passed as parameters,
  gradients and updates: an array, or Python's [None]. *)
Abbreviation array := (list Q).
Abbreviation pytree := (option (list Q)).

(** Modelled from the spec: [optax.apply_updates] is library code that is
  not under src/.  "A separate pure function applies updates additively
  to parameters": the elementwise sum of two trees of one shape; trees of
  different shapes raise. *)
Fixpoint add_arrays (params updates : array) : option array :=
  match params, updates with
  | [], [] => Some []
  | p :: ps, u :: us => r ← add_arrays ps us; Some (p + u :: r)
  | _, _ => None
  end.

Definition apply_updates (params updates : pytree) : option pytree :=
  match params, updates with
  | None, None => Some None
  | Some p, Some u => Some <$> add_arrays p u
  | _, _ => None
  end.

(** Modelled from the spec: a schedule is "a pure function mapping a step
  count to a scalar value". *)
Abbreviation schedule := (nat -> Q).

(** Modelled from the spec: [optax.linear_schedule] is library code that is
  not under src/.  A linear change from [init_value] to [end_value] over
  [transition_steps] steps, constant afterwards. *)
Definition linear_schedule (init_value end_value : Q) (transition_steps : nat)
  : schedule :=
  fun count =>
    let c := Nat.min count transition_steps in
    init_value + (end_value - init_value)
                 * (inject_Z (Z.of_nat c) / inject_Z (Z.of_nat transition_steps)).

(** [jnp.allclose(a, b)] of an array and a scalar with the default
  tolerances [rtol=1e-05] and [atol=1e-08]:
  [|a - b| <= atol + rtol * |b|] for every element. *)
Definition rtol : Q := 1 # 100000.
Definition atol : Q := 1 # 100000000.

Definition allclose (a : array) (b : Q) : bool :=
  forallb (fun x => Qle_bool (Qabs (x - b)) (atol + rtol * Qabs b)) a.

#[local] Set Warnings "-register-all".

Section Optax.
(** The state of a library transform is opaque. *)
Variable base_state : Type.

(** Optimizer states: the state of one library transform, the tuple of
    states of a chain, or the state of a transform with injected
    hyperparameters, whose [hyperparams] the notebook reads. *)
Inductive OptState :=
| BaseState (s : base_state)
| ChainState (states : list OptState)
| InjectHyperparamsState (count : nat) (hyperparams : gmap string Q)
                         (inner_state : OptState).

(** Modelled from the spec: the optimizer object, library code that is not
    under src/.  "An optimizer object exposes an initialization operation
    (returns initial state from parameters) and an update operation
    (returns proposed updates and new state from gradients and current
    state)".  [update] is partial: handed a state that is not its own it
    raises ([None]). *)
Record GradientTransformation := {
  init : pytree -> OptState;
  update : pytree -> OptState -> option (pytree * OptState)
}.

(** A transform of the library on its own opaque state. *)
Record transform := {
  t_init : pytree -> base_state;
  t_update : pytree -> base_state -> pytree * base_state
}.

Definition of_transform (t : transform) : GradientTransformation := {|
  init p := BaseState (t_init t p);
  update g s :=
    match s with
    | BaseState b => let '(u, b') := t_update t g b in Some (u, BaseState b')
    | _ => None
    end
|}.

(** Modelled from the spec: [optax.chain] is library code that is not
    under src/.  "A chaining constructor composes a sequence of such
    optimizer objects into one", "sequentially": the updates of one stage
    are the gradients of the next, and the state is the tuple of the
    stages' states. *)
Fixpoint chain_update (ts : list GradientTransformation) (g : pytree)
         (ss : list OptState) : option (pytree * list OptState) :=
  match ts, ss with
  | [], [] => Some (g, [])
  | t :: ts', s :: ss' =>
      '(g', s') ← update t g s;
      '(u, r) ← chain_update ts' g' ss';
      Some (u, s' :: r)
  | _, _ => None
  end.

Definition chain (ts : list GradientTransformation) : GradientTransformation := {|
  init p := ChainState (map (fun t => init t p) ts);
  update g s :=
    match s with
    | ChainState ss => '(u, r) ← chain_update ts g ss; Some (u, ChainState r)
    | _ => None
    end
|}.

(** The spec does not say which step count the hyperparameters found in
    the state after an update belong to: the count the update was called
    with, or the count it leaves behind. *)
Inductive reading := AtCall | AfterCall.

Definition reported_step (r : reading) (count : nat) : nat :=
  match r with AtCall => count | AfterCall => S count end.

(** Modelled from the spec: [optax.inject_hyperparams] is library code
    that is not under src/.  It "wraps an optimizer constructor so
    specified keyword arguments become inspectable, schedulable fields of
    the resulting state": the state holds a step count, the current value
    of the scheduled keyword argument, and the state of the wrapped
    transform, which is rebuilt with that value at every call. *)
Definition inject_hyperparams (r : reading)
           (inner_factory : Q -> GradientTransformation)
           (name : string) (sched : schedule) : GradientTransformation := {|
  init p :=
    let h := sched 0%nat in
    InjectHyperparamsState 0 {[ name := h ]} (init (inner_factory h) p);
  update g s :=
    match s with
    | InjectHyperparamsState count _ inner =>
        let h := sched (reported_step r count) in
        '(u, inner') ← update (inner_factory h) g inner;
        Some (u, InjectHyperparamsState (S count) {[ name := h ]} inner')
    | _ => None
    end
|}.

(** [opt_state.hyperparams[name]] *)
Definition hyperparam (s : OptState) (name : string) : option Q :=
  match s with
  | InjectHyperparamsState _ hp _ => hp !! name
  | _ => None
  end.

(** [n] calls of [update], each fed the state the one before returned. *)
Fixpoint feed (t : GradientTransformation) (g : pytree) (n : nat)
         (s : OptState) : option OptState :=
  match n with
  | O => Some s
  | S n' => '(_, s') ← update t g s; feed t g n' s'
  end.

End Optax.

Arguments BaseState {base_state} s.
Arguments ChainState {base_state} states.
Arguments InjectHyperparamsState {base_state} count hyperparams inner_state.
Arguments init {base_state} g p.
Arguments update {base_state} g grads state.
Arguments t_init {base_state} t p.
Arguments t_update {base_state} t grads state.
Arguments of_transform {base_state} t.
Arguments chain {base_state} ts.
Arguments chain_update {base_state} ts g ss.
Arguments inject_hyperparams {base_state} r inner_factory name sched.
Arguments hyperparam {base_state} s name.
Arguments feed {base_state} t g n s.

(** ** A small instance of the library

    Rescaling transforms without a state and constant data, on which the
    model can be run and its assumptions checked. *)

Definition toy_normal (k : Z) (rows cols : nat) : list (list Q) :=
  repeat (repeat (inject_Z k) cols) rows.

Definition toy_scale (c : Q) : transform unit := {|
  t_init _ := tt;
  t_update g _ := (map (Qmult c) <$> g, tt)
|}.

Definition toy_decay (init_value : Q) (transition_steps : nat) (decay_rate : Q)
  : schedule :=
  fun _ => init_value.

(** ** Python statements and their execution *)

Inductive exn :=
| AssertionError (msg : string)
| NameError (name : string)
| TypeError
| KeyError (key : string).

Abbreviation result := (sum exn).

#[export] Instance result_ret : MRet result := fun _ x => inr x.
#[export] Instance result_bind : MBind result := fun _ _ f m =>
  match m with
  | inr x => f x
  | inl e => inl e
  end.

(** A library call that raises, seen from Python.  The model does not tell
    apart the classes of the exceptions of the libraries ([TypeError] or
    [ValueError], by the check that fails): [TypeError] stands for them. *)
Definition raising {A} (e : exn) (o : option A) : result A :=
  match o with
  | Some a => inr a
  | None => inl e
  end.

Section Notebook.
(** What the notebook imports and this development leaves abstract. *)
Variable key : Type.
Variable PRNGKey : Z -> key.
Variable random_normal : key -> nat -> nat -> list (list Q).
Variable base_state : Type.
Variable adam : Q -> transform base_state.
Variable clip_by_global_norm : Q -> transform base_state.
Variable scale_by_adam : transform base_state.
Variable scale_by_schedule : schedule -> transform base_state.
Variable scale : Q -> transform base_state.
Variable exponential_decay : Q -> nat -> Q -> schedule.
Variable inject_reading : reading.

(** The values the notebook's variables hold. *)
Inductive value :=
| VNone
| VInt (n : Z)
| VFloat (q : Q)
| VKey (k : key)
| VArray (a : array)
| VMatrix (m : list (list Q))
| VSchedule (f : schedule)
| VTransform (t : GradientTransformation base_state)
| VState (s : OptState base_state).

(** The global namespace of the notebook. *)
Abbreviation env := (gmap string value).

Definition as_float (v : value) : result Q :=
  match v with VFloat q => inr q | _ => inl TypeError end.
Definition as_key (v : value) : result key :=
  match v with VKey k => inr k | _ => inl TypeError end.
Definition as_array (v : value) : result array :=
  match v with VArray a => inr a | _ => inl TypeError end.
Definition as_matrix (v : value) : result (list (list Q)) :=
  match v with VMatrix m => inr m | _ => inl TypeError end.
Definition as_schedule (v : value) : result schedule :=
  match v with VSchedule f => inr f | _ => inl TypeError end.
Definition as_transform (v : value) : result (GradientTransformation base_state) :=
  match v with VTransform t => inr t | _ => inl TypeError end.
Definition as_state (v : value) : result (OptState base_state) :=
  match v with VState s => inr s | _ => inl TypeError end.
Definition as_pytree (v : value) : result pytree :=
  match v with VNone => inr None | VArray a => inr (Some a) | _ => inl TypeError end.
Definition of_pytree (t : pytree) : value :=
  match t with None => VNone | Some a => VArray a end.

(** Expressions are read off the namespace; evaluating one does not
    change it.  The names the import cell and the cell of [network] and
    [compute_loss] bind ([jax], [jnp], [optax], the two functions) are taken
    as bound: only the names the later cells assign are looked up. *)
Definition expr (A : Type) : Type := env -> result A.

Definition Var (x : string) : expr value := fun ρ =>
  match ρ !! x with
  | Some v => inr v
  | None => inl (NameError x)
  end.

Definition Const (v : value) : expr value := fun _ => inr v.

(** [tx.init(params)] *)
Definition call_init (tx params : expr value) : expr value := fun ρ =>
  t ← tx ρ ≫= as_transform;
  p ← params ρ ≫= as_pytree;
  inr (VState (init t p)).

(** [tx.update(grads, state)], a pair *)
Definition call_update (tx grads state : expr value) : expr (value * value) :=
  fun ρ =>
    t ← tx ρ ≫= as_transform;
    g ← grads ρ ≫= as_pytree;
    s ← state ρ ≫= as_state;
    '(u, s') ← raising TypeError (update t g s);
    inr (of_pytree u, VState s').

(** [jax.grad(compute_loss)(params, x, y)], on data with at least one
    row (on none the library returns a gradient of zeros, the model none). *)
Definition call_grad_compute_loss (params x y : expr value) : expr value :=
  fun ρ =>
    p ← params ρ ≫= as_array;
    xs ← x ρ ≫= as_matrix;
    ys ← y ρ ≫= as_array;
    g ← raising TypeError (grad_compute_loss p xs ys);
    inr (VArray g).

(** [optax.apply_updates(params, updates)] *)
Definition call_apply_updates (params updates : expr value) : expr value :=
  fun ρ =>
    p ← params ρ ≫= as_pytree;
    u ← updates ρ ≫= as_pytree;
    r ← raising TypeError (apply_updates p u);
    inr (of_pytree r).

(** [jnp.allclose(a, b)] *)
Definition call_allclose (a b : expr value) : expr bool := fun ρ =>
  x ← a ρ ≫= as_array;
  y ← b ρ ≫= as_float;
  inr (allclose x y).

(** [state.hyperparams[name] == q] *)
Definition hyperparam_eq (state : expr value) (name : string) (q : Q)
  : expr bool := fun ρ =>
  s ← state ρ ≫= as_state;
  h ← raising (KeyError name) (hyperparam s name);
  inr (Qeq_bool h q).

Inductive stmt :=
| Assign (x : string) (e : expr value)                (* x = e *)
| AssignPair (x y : string) (e : expr (value * value)) (* x, y = e *)
| Assert (c : expr bool) (msg : string)               (* assert c, msg *)
| For (x : string) (start : Z) (n : nat) (body : list stmt).
    (* for x in range(start, start + n): body *)

Fixpoint for_range (body : env -> result env) (x : string) (i : Z) (n : nat)
         (ρ : env) : result env :=
  match n with
  | O => inr ρ
  | S n' => ρ' ← body (<[x := VInt i]> ρ); for_range body x (i + 1) n' ρ'
  end.

Fixpoint exec_stmt (s : stmt) (ρ : env) : result env :=
  match s with
  | Assign x e => v ← e ρ; inr (<[x := v]> ρ)
  | AssignPair x y e => '(v, w) ← e ρ; inr (<[y := w]> (<[x := v]> ρ))
  | Assert c msg =>
      b ← c ρ; if (b : bool) then inr ρ else inl (AssertionError msg)
  | For x start n body =>
      for_range
        ((fix exec_block (l : list stmt) (ρ : env) : result env :=
            match l with
            | [] => inr ρ
            | s' :: l' => ρ' ← exec_stmt s' ρ; exec_block l' ρ'
            end) body) x start n ρ
  end.

Fixpoint exec (l : list stmt) (ρ : env) : result env :=
  match l with
  | [] => inr ρ
  | s :: l' => ρ' ← exec_stmt s ρ; exec l' ρ'
  end.

(** ** The three optimizers of the notebook *)

(** [optax.adam(learning_rate)] *)
Definition optimizer (learning_rate : Q) : GradientTransformation base_state :=
  of_transform (adam learning_rate).

(** [optax.chain(optax.clip_by_global_norm(1.0), optax.scale_by_adam(),
    optax.scale_by_schedule(scheduler), optax.scale(-1.0))] *)
Definition gradient_transform (scheduler : schedule)
  : GradientTransformation base_state :=
  chain [
    of_transform (clip_by_global_norm 1);
    of_transform scale_by_adam;
    of_transform (scale_by_schedule scheduler);
    of_transform (scale (-1))
  ].

(** [optax.inject_hyperparams(optax.clip_by_global_norm)(
      max_norm=optax.linear_schedule(1.0, 0.0, transition_steps=99))] *)
Definition decaying_global_norm_tx : GradientTransformation base_state :=
  inject_hyperparams inject_reading
    (fun max_norm => of_transform (clip_by_global_norm max_norm))
    "max_norm" (linear_schedule 1 0 99).

(** ** The notebook, cell by cell

    Cells 1 and 2 import the libraries and define [network] and
    [compute_loss], which are the definitions above. *)

(** Cell 3: the data. *)
Definition cell_data : list stmt := [
  Assign "key" (Const (VKey (PRNGKey 42)));
  Assign "target_params" (Const (VFloat target_params));
  Assign "xs" (fun ρ => k ← Var "key" ρ ≫= as_key;
                        inr (VMatrix (random_normal k 16 2)));
  Assign "ys" (fun ρ => xs ← Var "xs" ρ ≫= as_matrix;
                        t ← Var "target_params" ρ ≫= as_float;
                        inr (VArray (gen_ys xs t)))
].

(** Cell 4: Adam and its state. *)
Definition cell_adam : list stmt := [
  Assign "start_learning_rate" (Const (VFloat start_learning_rate));
  Assign "optimizer"
    (fun ρ => lr ← Var "start_learning_rate" ρ ≫= as_float;
              inr (VTransform (optimizer lr)));
  Assign "params" (Const (VArray [0; 0]));
  Assign "opt_state" (call_init (Var "optimizer") (Var "params"))
].

Definition retrieve_msg : string :=
  "Optimization should retrive the target params used to generate the data.".

(** Cell 5: the first loop and its assertion. *)
Definition loop_adam : stmt :=
  For "_" 0 1000 [
    Assign "grads"
      (call_grad_compute_loss (Var "params") (Var "xs") (Var "ys"));
    AssignPair "updates" "opt_state"
      (call_update (Var "optimizer") (Var "grads") (Var "opt_state"));
    Assign "params" (call_apply_updates (Var "params") (Var "updates"))
  ].

Definition assert_adam : stmt :=
  Assert (call_allclose (Var "params") (Var "target_params")) retrieve_msg.

(** Cell 6: the chained transform. *)
Definition cell_chain : list stmt := [
  Assign "scheduler"
    (fun ρ => lr ← Var "start_learning_rate" ρ ≫= as_float;
              inr (VSchedule (exponential_decay lr 1000 (99 # 100))));
  Assign "gradient_transform"
    (fun ρ => sched ← Var "scheduler" ρ ≫= as_schedule;
              inr (VTransform (gradient_transform sched)))
].

(** Cell 7: the second loop and its assertion. *)
Definition cell_chain_init : list stmt := [
  Assign "params" (Const (VArray [0; 0]));
  Assign "opt_state" (call_init (Var "gradient_transform") (Var "params"))
].

Definition loop_chain : stmt :=
  For "_" 0 1000 [
    Assign "grads"
      (call_grad_compute_loss (Var "params") (Var "xs") (Var "ys"));
    AssignPair "updates" "opt_state"
      (call_update (Var "gradient_transform") (Var "grads") (Var "opt_state"));
    Assign "params" (call_apply_updates (Var "params") (Var "updates"))
  ].

Definition assert_chain : stmt :=
  Assert (call_allclose (Var "params") (Var "target_params")) retrieve_msg.

(** Cell 8: the decaying clipping threshold. *)
Definition cell_inject : list stmt := [
  Assign "decaying_global_norm_tx"
    (Const (VTransform decaying_global_norm_tx));
  Assign "opt_state" (call_init (Var "decaying_global_norm_tx") (Const VNone))
].

Definition assert_start : stmt :=
  Assert (hyperparam_eq (Var "opt_state") "max_norm" 1)
         "Max norm should start at 1.0".

Definition loop_inject : stmt :=
  For "_" 0 100 [
    AssignPair "_" "opt_state"
      (call_update (Var "decaying_global_norm_tx") (Const VNone)
                   (Var "opt_state"))
  ].

Definition assert_end : stmt :=
  Assert (hyperparam_eq (Var "opt_state") "max_norm" 0)
         "Max norm should end at 0.0".

(** All that follows the data cell. *)
Definition after_data : list stmt :=
  cell_adam ++ [loop_adam; assert_adam]
  ++ cell_chain ++ cell_chain_init ++ [loop_chain; assert_chain]
  ++ cell_inject ++ [assert_start; loop_inject; assert_end].

Definition notebook : list stmt := cell_data ++ after_data.

(** The training loop that cells 5 and 7 both write out, for the optimizer
    bound to [tx]. *)
Definition training_loop (tx : string) : stmt :=
  For "_" 0 1000 [
    Assign "grads"
      (call_grad_compute_loss (Var "params") (Var "xs") (Var "ys"));
    AssignPair "updates" "opt_state"
      (call_update (Var tx) (Var "grads") (Var "opt_state"));
    Assign "params" (call_apply_updates (Var "params") (Var "updates"))
  ].

(** The names a block of statements assigns to. *)
Fixpoint assigned_stmt (s : stmt) : list string :=
  match s with
  | Assign x _ => [x]
  | AssignPair x y _ => [x; y]
  | Assert _ _ => []
  | For x _ _ body =>
      x :: (fix go (l : list stmt) : list string :=
              match l with
              | [] => []
              | s' :: l' => assigned_stmt s' ++ go l'
              end) body
  end.

Fixpoint assigned (l : list stmt) : list string :=
  match l with
  | [] => []
  | s :: l' => assigned_stmt s ++ assigned l'
  end.

(** ** Execution, statement by statement

    A configuration is what is left to run and the namespace, or the
    exception that ended the run.  No rule catches an exception. *)
Inductive config :=
| Running (k : list stmt) (ρ : env)
| Raised (e : exn).

Inductive step : config -> config -> Prop :=
| step_assign x e k ρ v :
    e ρ = inr v ->
    step (Running (Assign x e :: k) ρ) (Running k (<[x := v]> ρ))
| step_assign_raise x e k ρ err :
    e ρ = inl err ->
    step (Running (Assign x e :: k) ρ) (Raised err)
| step_pair x y e k ρ v w :
    e ρ = inr (v, w) ->
    step (Running (AssignPair x y e :: k) ρ)
         (Running k (<[y := w]> (<[x := v]> ρ)))
| step_pair_raise x y e k ρ err :
    e ρ = inl err ->
    step (Running (AssignPair x y e :: k) ρ) (Raised err)
| step_assert_pass c msg k ρ :
    c ρ = inr true ->
    step (Running (Assert c msg :: k) ρ) (Running k ρ)
| step_assert_fail c msg k ρ :
    c ρ = inr false ->
    step (Running (Assert c msg :: k) ρ) (Raised (AssertionError msg))
| step_assert_raise c msg k ρ err :
    c ρ = inl err ->
    step (Running (Assert c msg :: k) ρ) (Raised err)
| step_for_exit x i body k ρ :
    step (Running (For x i 0 body :: k) ρ) (Running k ρ)
| step_for_iter x i n body k ρ :
    step (Running (For x i (S n) body :: k) ρ)
         (Running (body ++ For x (i + 1) n body :: k) (<[x := VInt i]> ρ)).

(** Where a run that began with [l] stands once [l] is done: [k] is
    left. *)
Definition outcome (r : result env) (k : list stmt) : config :=
  match r with
  | inr ρ => Running k ρ
  | inl e => Raised e
  end.

(** The notebook between its assertions. *)
Definition seg_adam : list stmt := cell_data ++ cell_adam ++ [loop_adam].
Definition seg_chain : list stmt := cell_chain ++ cell_chain_init ++ [loop_chain].
Definition seg_inject : list stmt := cell_inject.
Definition seg_decay : list stmt := [loop_inject].

(** The conditions of the four assertions. *)
Definition cond_close : expr bool :=
  call_allclose (Var "params") (Var "target_params").
Definition cond_start : expr bool := hyperparam_eq (Var "opt_state") "max_norm" 1.
Definition cond_end : expr bool := hyperparam_eq (Var "opt_state") "max_norm" 0.

(** What a training loop relies on: the optimizer bound to [tx], the data,
    parameters of shape (2,) and a state of the optimizer. *)
Definition training_inv (tx : string) (t : GradientTransformation base_state)
           (valid : OptState base_state -> Prop) (ρ : env) : Prop :=
  ρ !! tx = Some (VTransform t)
  /\ (exists X, ρ !! "xs" = Some (VMatrix X) /\ has_shape X 16 2)
  /\ (exists Y, ρ !! "ys" = Some (VArray Y) /\ length Y = 16%nat)
  /\ (exists p, ρ !! "params" = Some (VArray p) /\ length p = 2%nat)
  /\ (exists s, ρ !! "opt_state" = Some (VState s) /\ valid s).

(** What the data cell and the first optimizer cell leave behind for the
    rest of the notebook. *)
Definition data_ready (ρ : env) : Prop :=
  (exists X, ρ !! "xs" = Some (VMatrix X) /\ has_shape X 16 2)
  /\ (exists Y, ρ !! "ys" = Some (VArray Y) /\ length Y = 16%nat)
  /\ ρ !! "target_params" = Some (VFloat target_params)
  /\ ρ !! "start_learning_rate" = Some (VFloat start_learning_rate).



(** ** The interface contract *)

(** The states an optimizer produces itself: by [init], or by [update] from
    such a state. *)
Inductive own_state (t : GradientTransformation base_state)
  : OptState base_state -> Prop :=
| own_init params : own_state t (init t params)
| own_update grads s updates s' :
    own_state t s -> update t grads s = Some (updates, s') -> own_state t s'.

(** [update] answers every state the optimizer produced itself with a pair
    of updates and a successor state of its own. *)
Definition answers_own_states (t : GradientTransformation base_state) : Prop :=
  forall s grads, own_state t s ->
    exists updates s', update t grads s = Some (updates, s') /\ own_state t s'.

Definition follows_interface (t : GradientTransformation base_state)
           (valid : OptState base_state -> Prop) : Prop :=
  (forall params, valid (init t params)) /\
  (forall grads s, valid s ->
     exists updates s', update t grads s = Some (updates, s') /\ valid s').

Definition is_base (s : OptState base_state) : Prop :=
  match s with BaseState _ => True | _ => False end.

Definition chain_valid (vs : list (OptState base_state -> Prop))
           (s : OptState base_state) : Prop :=
  match s with
  | ChainState ss => Forall2 (fun v s' => v s') vs ss
  | _ => False
  end.

Definition inject_valid (name : string) (inner : OptState base_state -> Prop)
           (s : OptState base_state) : Prop :=
  match s with
  | InjectHyperparamsState _ hp i => is_Some (hp !! name) /\ inner i
  | _ => False
  end.

(** Two trees of arrays of one shape. *)
Definition same_shape (a b : pytree) : Prop :=
  match a, b with
  | None, None => True
  | Some x, Some y => length x = length y
  | _, _ => False
  end.

Definition keeps_shape (t : GradientTransformation base_state)
           (valid : OptState base_state -> Prop) : Prop :=
  forall grads s updates s',
    valid s -> update t grads s = Some (updates, s') -> same_shape grads updates.

Definition transform_keeps_shape (t : transform base_state) : Prop :=
  forall grads b, same_shape grads (fst (t_update t grads b)).

(** On dual numbers: the value and the derivative vanish. *)
Definition dzero (d : dual) : Prop := fst d == 0 /\ snd d == 0.

(** * Properties *)

(** ** Properties of the loss *)

Lemma mapM_cons {X Y} (f : X -> option Y) (x : X) (l : list X) :
  mapM f (x :: l) = y ← f x; k ← mapM f l; mret (y :: k).
Proof. reflexivity. Qed.

Lemma dot_total {A} `{Scalar A} (a b : list A) :
  length a = length b -> is_Some (dot a b).
Proof.
  revert b; induction a as [|x a IH]; intros [|y b] Hlen; simpl in *;
    try discriminate; [eauto|].
  destruct (IH b) as [r Hr]; [lia|]. rewrite Hr. simpl. eauto.
Qed.

Lemma network_total {A} `{Scalar A} (params : list A) (x : list (list A)) :
  Forall (fun r => length r = length params) x ->
  exists preds, network params x = Some preds /\ length preds = length x.
Proof.
  unfold network. induction 1 as [|r x Hr _ IH]; [simpl; eauto|].
  destruct (dot_total params r) as [d Hd]; [done|].
  destruct IH as (preds & Hp & Hl).
  rewrite mapM_cons, Hd, Hp. simpl. eexists; split; [done|]. simpl. lia.
Qed.

Lemma l2_loss_total {A} `{Scalar A} (ps ts : list A) :
  length ps = length ts ->
  exists r, l2_loss ps ts = Some r /\ length r = length ps.
Proof.
  revert ts; induction ps as [|p ps IH]; intros [|t ts] Hlen; simpl in *;
    try discriminate; [eauto|].
  destruct (IH ts) as (r & Hr & Hl); [lia|].
  rewrite Hr. simpl. eexists; split; [done|]. simpl. lia.
Qed.

Lemma gen_ys_length xs t : length (gen_ys xs t) = length xs.
Proof. unfold gen_ys. apply length_map. Qed.

Lemma Qsquare_nonneg (d : Q) : 0 <= d * d.
Proof.
  destruct (Qlt_le_dec d 0) as [Hd|Hd].
  - assert (Heq : d * d == (- d) * (- d)) by ring. rewrite Heq.
    apply Qmult_le_0_compat; lra.
  - by apply Qmult_le_0_compat.
Qed.

(** Every term of the L2 loss is a half square, so it is not negative. *)
Lemma l2_loss_nonneg (ps ts ls : list Q) :
  l2_loss ps ts = Some ls -> Forall (fun v => 0 <= v) ls.
Proof.
  revert ts ls; induction ps as [|p ps IH]; intros [|t ts] ls; simpl;
    try discriminate.
  - intros [= <-]. constructor.
  - destruct (l2_loss ps ts) as [r|] eqn:Hr; simpl; [|discriminate].
    intros [= <-]. constructor; [|by eapply IH].
    cbn. apply Qmult_le_0_compat; [lra | apply Qsquare_nonneg].
Qed.

Lemma asum_nonneg (l : list Q) : Forall (fun v => 0 <= v) l -> 0 <= asum l.
Proof.
  unfold asum. induction 1 as [|v l Hv _ IH]; simpl; [lra|].
  cbn in *. lra.
Qed.

Lemma count_pos (n : nat) : (0 < n)%nat -> 0 < inject_Z (Z.of_nat n).
Proof.
  intros Hn. change 0 with (inject_Z 0). rewrite <- Zlt_Qlt. lia.
Qed.

Lemma mean_nonneg (l : list Q) v :
  mean l = Some v -> Forall (fun v => 0 <= v) l -> 0 <= v.
Proof.
  destruct l as [|a l]; simpl; [discriminate|].
  intros [= <-] Hl. cbn [sc_div sc_const Q_scalar].
  apply Qle_shift_div_l; [apply count_pos; simpl; lia|].
  rewrite Qmult_0_l. exact (asum_nonneg (a :: l) Hl).
Qed.

Lemma compute_loss_nonneg (params : list Q) x y v :
  compute_loss params x y = Some v -> 0 <= v.
Proof.
  unfold compute_loss.
  destruct (network params x) as [preds|]; simpl; [|discriminate].
  destruct (l2_loss preds y) as [ls|] eqn:Hls; simpl; [|discriminate].
  intros Hm. eapply mean_nonneg; [done|]. by eapply l2_loss_nonneg.
Qed.

Lemma compute_loss_total {A} `{Scalar A} (params : list A) x y :
  Forall (fun r => length r = length params) x ->
  length y = length x -> x <> [] ->
  is_Some (compute_loss params x y).
Proof.
  intros Hx Hy Hne. unfold compute_loss.
  destruct (network_total params x Hx) as (preds & -> & Hl). simpl.
  destruct (l2_loss_total preds y) as (ls & -> & Hl'); [lia|]. simpl.
  destruct ls as [|l ls]; [|simpl; eauto].
  destruct x; [done|]. simpl in *. lia.
Qed.

(** At the target parameters the predictions are the generated [ys]. *)
Lemma network_target (xs : list (list Q)) (t : Q) :
  Forall (fun r => length r = 2%nat) xs ->
  exists ps, network [t; t] xs = Some ps /\ Forall2 Qeq ps (gen_ys xs t).
Proof.
  unfold network, gen_ys. induction 1 as [|r xs Hr _ IH]; [simpl; eauto|].
  destruct r as [|a [|b [|? ?]]]; try discriminate.
  destruct IH as (ps & IH & Hps). cbn [map]. rewrite mapM_cons, IH. simpl.
  eexists; split; [done|]. constructor; [|done]. cbn. ring.
Qed.

Lemma l2_loss_zero (ps ys : list Q) :
  Forall2 Qeq ps ys ->
  exists ls, l2_loss ps ys = Some ls /\ Forall (fun v => v == 0) ls.
Proof.
  induction 1 as [|p y ps ys Hpy _ (ls & Hls & Hz)]; simpl; [eauto|].
  rewrite Hls. simpl. eexists; split; [done|]. constructor; [|done].
  cbn. rewrite Hpy. ring.
Qed.

Lemma asum_zero (l : list Q) : Forall (fun v => v == 0) l -> asum l == 0.
Proof.
  unfold asum. induction 1 as [|v l Hv _ IH]; simpl; [reflexivity|].
  cbn in *. rewrite Hv, IH. ring.
Qed.

Lemma network_target_dual (xs : list (list Q)) (t e0 e1 : Q) :
  Forall (fun r => length r = 2%nat) xs ->
  exists ps, network [(t, e0); (t, e1)] (map lift xs) = Some ps
             /\ Forall2 (fun d y => fst d == y) ps (gen_ys xs t).
Proof.
  unfold network, gen_ys. induction 1 as [|r xs Hr _ IH]; [simpl; eauto|].
  destruct r as [|a [|b [|? ?]]]; try discriminate.
  destruct IH as (ps & IH & Hps). cbn [map]. rewrite mapM_cons, IH. simpl.
  eexists; split; [done|]. constructor; [|done]. cbn. ring.
Qed.

Lemma l2_loss_dzero (ps : list dual) (ys : list Q) :
  Forall2 (fun d y => fst d == y) ps ys ->
  exists ls, l2_loss ps (lift ys) = Some ls /\ Forall dzero ls.
Proof.
  induction 1 as [|p y ps ys Hpy _ (ls & Hls & Hz)]; simpl; [eauto|].
  rewrite Hls. simpl. eexists; split; [done|]. constructor; [|done].
  split; cbn; rewrite Hpy; ring.
Qed.

Lemma asum_dzero (l : list dual) : Forall dzero l -> dzero (asum l).
Proof.
  unfold asum. induction 1 as [|v l [Hv Hv'] _ [IH IH']]; simpl.
  - split; reflexivity.
  - split; cbn in *; [rewrite Hv, IH | rewrite Hv', IH']; ring.
Qed.

Lemma l2_loss_length {A} `{Scalar A} (ps ts ls : list A) :
  l2_loss ps ts = Some ls -> length ls = length ps.
Proof.
  revert ts ls; induction ps as [|p ps IH]; intros [|t ts] ls; simpl;
    try discriminate.
  - by intros [= <-].
  - destruct (l2_loss ps ts) as [r|] eqn:Hr; simpl; [|discriminate].
    intros [= <-]. simpl. by rewrite (IH _ _ Hr).
Qed.

Lemma compute_loss_target (xs : list (list Q)) (t : Q) :
  xs <> [] -> Forall (fun r => length r = 2%nat) xs ->
  exists v, compute_loss [t; t] xs (gen_ys xs t) = Some v /\ v == 0.
Proof.
  intros Hne Hx. unfold compute_loss.
  destruct (network_target xs t Hx) as (ps & -> & Hps). simpl.
  destruct (l2_loss_zero _ _ Hps) as (ls & Hls & Hz). rewrite Hls. simpl.
  pose proof (l2_loss_length _ _ _ Hls) as Hlen.
  pose proof (Forall2_length _ _ _ Hps) as Hlen'.
  rewrite gen_ys_length in Hlen'.
  destruct ls as [|l ls].
  { destruct xs; [done|]. simpl in *. lia. }
  simpl. eexists; split; [done|].
  cbn [sc_div sc_const Q_scalar]. unfold Qdiv.
  change (l + asum ls) with (asum (l :: ls)).
  rewrite (asum_zero _ Hz). ring.
Qed.

Lemma compute_loss_target_dual (xs : list (list Q)) (t e0 e1 : Q) :
  xs <> [] -> Forall (fun r => length r = 2%nat) xs ->
  exists d, compute_loss [(t, e0); (t, e1)] (map lift xs) (lift (gen_ys xs t))
            = Some d /\ dzero d.
Proof.
  intros Hne Hx. unfold compute_loss.
  destruct (network_target_dual xs t e0 e1 Hx) as (ps & -> & Hps).
  destruct (l2_loss_dzero _ _ Hps) as (ls & Hls & Hz).
  cbn [mbind option_bind]. rewrite Hls. simpl.
  pose proof (l2_loss_length _ _ _ Hls) as Hlen.
  pose proof (Forall2_length _ _ _ Hps) as Hlen'.
  rewrite gen_ys_length in Hlen'.
  destruct ls as [|l ls].
  { destruct xs; [done|]. simpl in *. lia. }
  simpl. eexists; split; [done|].
  destruct (asum_dzero _ Hz) as [Hv Hd]. unfold asum in Hv, Hd. simpl in Hv, Hd.
  split; cbn [sc_div sc_const dual_scalar fst snd]; unfold Qdiv.
  - rewrite Hv. ring.
  - rewrite Hv, Hd. ring.
Qed.

(** C8. With the data of the notebook ([xs] of shape (16, 2) and
    [ys = jnp.sum(xs * 0.5, axis=-1)]) the parameters [0.5, 0.5] are a
    global minimum of [compute_loss]: there the loss is 0 and its gradient
    is the zero vector, and the loss is never negative, whatever the
    parameters. *)
Theorem compute_loss_target_is_minimum (xs : list (list Q)) :
  has_shape xs 16 2 ->
  let ys := gen_ys xs target_params in
  (exists v, compute_loss [target_params; target_params] xs ys = Some v
             /\ v == 0)
  /\ (exists g0 g1,
        grad_compute_loss [target_params; target_params] xs ys = Some [g0; g1]
        /\ g0 == 0 /\ g1 == 0)
  /\ (forall p0 p1, exists v, compute_loss [p0; p1] xs ys = Some v /\ 0 <= v)
  /\ (forall params v, compute_loss params xs ys = Some v -> 0 <= v).
Proof.
  intros [Hrows Hcols] ys.
  assert (Hne : xs <> []) by (intros ->; discriminate).
  split; [by apply compute_loss_target|].
  split.
  - unfold grad_compute_loss. simpl.
    destruct (compute_loss_target_dual xs target_params 1 0 Hne Hcols)
      as (d0 & Hd0 & _ & Hz0).
    destruct (compute_loss_target_dual xs target_params 0 1 Hne Hcols)
      as (d1 & Hd1 & _ & Hz1).
    fold ys in Hd0, Hd1.
    change (seed 0 [target_params; target_params])
      with [(target_params, 1); (target_params, 0)].
    change (seed 1 [target_params; target_params])
      with [(target_params, 0); (target_params, 1)].
    rewrite Hd0, Hd1. simpl. eauto.
  - split.
    + intros p0 p1.
      destruct (compute_loss_total [p0; p1] xs ys) as [v Hv]; auto.
      { unfold ys. rewrite gen_ys_length. done. }
      exists v. split; [done|]. by eapply compute_loss_nonneg.
    + intros params v. apply compute_loss_nonneg.
Qed.

(** ** The gradient is the gradient

    The derivative parts computed on dual numbers agree with the closed
    form. *)

Lemma loss_terms_dual (p0 p1 e0 e1 : Q) (X : list (list Q)) :
  forall Y : list Q,
    Forall (fun r => length r = 2%nat) X -> length Y = length X ->
    exists preds ls,
      network [(p0, e0); (p1, e1)] (map lift X) = Some preds
      /\ l2_loss preds (lift Y) = Some ls
      /\ length ls = length X
      /\ snd (asum ls) == asum (zip_with (residual_along p0 p1 e0 e1) X Y).
Proof.
  unfold network. induction X as [|r X IH]; intros [|y Y] HX HY;
    try discriminate.
  - exists [], []. repeat split; reflexivity.
  - apply Forall_cons in HX as [Hr HX].
    destruct r as [|a [|b [|? ?]]]; try discriminate.
    destruct (IH Y HX) as (preds & ls & Hp & Hl & Hlen & Hsum);
      [by injection HY|].
    cbn [map]. rewrite mapM_cons, Hp.
    change (lift [a; b]) with [(a, 0); (b, 0)].
    change (lift (y :: Y)) with ((y, 0) :: lift Y).
    cbn [dot mbind option_bind mret option_ret].
    eexists _, _. split; [reflexivity|].
    cbn [l2_loss]. rewrite Hl. cbn [mbind option_bind].
    split; [reflexivity|]. split; [simpl; by rewrite Hlen|].
    cbn [zip_with residual_along]. unfold asum in *. cbn [foldr].
    cbn [sc_add sc_sub sc_mul sc_const dual_scalar Q_scalar fst snd] in *.
    rewrite Hsum. ring.
Qed.

Lemma compute_loss_derivative (p0 p1 e0 e1 : Q) (X : list (list Q)) (Y : list Q) m :
  has_shape X (S m) 2 -> length Y = S m ->
  exists d,
    compute_loss [(p0, e0); (p1, e1)] (map lift X) (lift Y) = Some d
    /\ snd d == derivative_formula p0 p1 e0 e1 X Y.
Proof.
  intros [Hrows Hcols] HY.
  destruct (loss_terms_dual p0 p1 e0 e1 X Y Hcols)
    as (preds & ls & Hp & Hl & Hlen & Hsum); [lia|].
  unfold compute_loss. rewrite Hp. cbn [mbind option_bind]. rewrite Hl.
  cbn [mbind option_bind].
  destruct ls as [|l ls]; [simpl in Hlen; lia|].
  cbn [mean]. eexists. split; [done|].
  unfold derivative_formula. rewrite <- Hsum, <- Hlen.
  set (s := asum (l :: ls)). set (n := inject_Z (Z.of_nat (length (l :: ls)))).
  assert (Hn : ~ n == 0).
  { pose proof (count_pos (length (l :: ls))) as Hpos.
    fold n in Hpos. simpl in Hpos. intros Hz. rewrite Hz in Hpos.
    apply (Qlt_irrefl 0), Hpos. lia. }
  cbn [sc_div sc_const dual_scalar fst snd]. field. done.
Qed.

(** X14. [jax.grad(compute_loss)] on parameters of shape (2,) and data of
    shape (n, 2), in closed form: each component is the mean over the rows
    of the residual [dot(params, x) - y] times the row's entry in that
    column. *)
Lemma grad_compute_loss_formula (p0 p1 : Q) (X : list (list Q)) (Y : list Q) m :
  has_shape X (S m) 2 -> length Y = S m ->
  exists g0 g1,
    grad_compute_loss [p0; p1] X Y = Some [g0; g1]
    /\ g0 == derivative_formula p0 p1 1 0 X Y
    /\ g1 == derivative_formula p0 p1 0 1 X Y.
Proof.
  intros HX HY. unfold grad_compute_loss.
  destruct (compute_loss_derivative p0 p1 1 0 X Y m HX HY) as (d0 & Hd0 & Hf0).
  destruct (compute_loss_derivative p0 p1 0 1 X Y m HX HY) as (d1 & Hd1 & Hf1).
  cbn [length seq]. rewrite !mapM_cons.
  change (seed 0 [p0; p1]) with [(p0, 1); (p1, 0)].
  change (seed 1 [p0; p1]) with [(p0, 0); (p1, 1)].
  rewrite Hd0, Hd1. simpl. eauto.
Qed.

(** ** Where the model is defined *)

Lemma dot_defined {A} `{Scalar A} (a b : list A) :
  is_Some (dot a b) <-> length a = length b.
Proof.
  split; [|apply dot_total].
  revert b; induction a as [|x a IH]; intros [|y b]; simpl;
    try (by intros [? [=]]).
  destruct (dot a b) as [r|] eqn:Hr; simpl; [|by intros [? [=]]].
  intros _. f_equal. apply IH. by rewrite Hr.
Qed.

Lemma network_Some {A} `{Scalar A} (params : list A) (x : list (list A)) preds :
  network params x = Some preds ->
  Forall (fun r => length r = length params) x /\ length preds = length x.
Proof.
  unfold network. revert preds. induction x as [|r x IH]; intros preds.
  - simpl. by intros [= <-].
  - rewrite mapM_cons. destruct (dot params r) as [d|] eqn:Hd; [|done].
    cbn [mbind option_bind].
    destruct (mapM (dot params) x) as [k|] eqn:Hk; [|done].
    cbn [mbind option_bind]. intros [= <-].
    destruct (IH k eq_refl) as [Hx Hl]. split; [|simpl; by rewrite Hl].
    constructor; [|done]. symmetry. apply dot_defined. by rewrite Hd.
Qed.

(** X1. [network] is defined exactly when every row of [x] has the length
    of [params] (otherwise [jnp.dot] raises), and then it returns one
    prediction per row. *)
Theorem network_defined {A} `{Scalar A} (params : list A) (x : list (list A)) :
  (is_Some (network params x)
   <-> Forall (fun r => length r = length params) x)
  /\ (forall preds, network params x = Some preds -> length preds = length x).
Proof.
  split; [split|].
  - intros [preds Hp]. by destruct (network_Some params x preds Hp).
  - intros Hx. destruct (network_total params x Hx) as (preds & -> & _). eauto.
  - intros preds Hp. by destruct (network_Some params x preds Hp).
Qed.

(** ** The data and the model *)

Lemma asum_cons (v : Q) (l : list Q) : asum (v :: l) = v + asum l.
Proof. reflexivity. Qed.

Lemma dot_repeat (t : Q) (row : list Q) :
  exists v, dot (repeat t (length row)) row = Some v
            /\ v == asum (map (fun x => x * t) row).
Proof.
  induction row as [|a row (v & Hv & Heq)]; cbn [length repeat dot map].
  { eexists. split; reflexivity. }
  rewrite Hv. cbn [mbind option_bind]. eexists. split; [done|].
  rewrite asum_cons. cbn [sc_add sc_mul Q_scalar]. rewrite Heq. ring.
Qed.

(** X4. The targets [ys = jnp.sum(xs * target, axis=-1)] are the
    predictions of [network] with every weight equal to [target], whatever
    the number of columns of [xs]: the data lies exactly on the linear
    model. *)
Theorem data_lies_on_model (xs : list (list Q)) (target : Q) rows cols :
  has_shape xs rows cols ->
  exists preds,
    network (repeat target cols) xs = Some preds
    /\ Forall2 Qeq preds (gen_ys xs target).
Proof.
  intros [_ Hcols]. unfold network, gen_ys.
  induction Hcols as [|r xs Hr _ (preds & Hp & Heq)]; [by exists []|].
  destruct (dot_repeat target r) as (v & Hv & Hveq). rewrite Hr in Hv.
  rewrite mapM_cons, Hv, Hp. cbn [mbind option_bind mret option_ret map].
  eexists. split; [done|]. by constructor.
Qed.

(** ** Properties of the execution *)

Lemma stmt_nested_ind (P : stmt -> Prop) :
  (forall x e, P (Assign x e)) ->
  (forall x y e, P (AssignPair x y e)) ->
  (forall c msg, P (Assert c msg)) ->
  (forall x i n body, Forall P body -> P (For x i n body)) ->
  forall s, P s.
Proof.
  intros HA HP HS HF. fix IH 1.
  intros [x e|x y e|c msg|x i n body]; [apply HA|apply HP|apply HS|].
  apply HF. revert body. fix IHbody 1.
  intros [|s body]; constructor; [apply IH|apply IHbody].
Qed.

Lemma exec_stmt_for x i n body ρ :
  exec_stmt (For x i n body) ρ = for_range (exec body) x i n ρ.
Proof. reflexivity. Qed.

Lemma assigned_stmt_for x i n body :
  assigned_stmt (For x i n body) = x :: assigned body.
Proof. reflexivity. Qed.

Lemma exec_app l1 l2 ρ :
  exec (l1 ++ l2) ρ = ρ' ← exec l1 ρ; exec l2 ρ'.
Proof.
  revert ρ; induction l1 as [|s l1 IH]; intros ρ; simpl; [done|].
  destruct (exec_stmt s ρ) as [e|ρ']; simpl; [done|apply IH].
Qed.

(** An exception is never caught: what follows the statement that raised
    it has no part in the result. *)
Lemma exec_raise_app l1 l2 ρ e :
  exec l1 ρ = inl e -> exec (l1 ++ l2) ρ = inl e.
Proof. intros He. by rewrite exec_app, He. Qed.

(** The step relation runs a block to the result [exec] computes. *)
Lemma for_range_steps body x :
  (forall k ρ, rtc step (Running (body ++ k) ρ) (outcome (exec body ρ) k)) ->
  forall n i k ρ,
    rtc step (Running (For x i n body :: k) ρ)
             (outcome (for_range (exec body) x i n ρ) k).
Proof.
  intros Hbody. induction n as [|n IH]; intros i k ρ; simpl.
  - apply rtc_once, step_for_exit.
  - eapply rtc_l; [apply step_for_iter|].
    eapply rtc_trans; [apply Hbody|].
    destruct (exec body (<[x := VInt i]> ρ)) as [e|ρ']; simpl; [done|].
    apply IH.
Qed.

Lemma exec_block_steps l :
  Forall (fun s => forall k ρ,
              rtc step (Running (s :: k) ρ) (outcome (exec_stmt s ρ) k)) l ->
  forall k ρ, rtc step (Running (l ++ k) ρ) (outcome (exec l ρ) k).
Proof.
  induction 1 as [|s l Hs _ IH]; intros k ρ; simpl; [done|].
  eapply rtc_trans; [apply Hs|].
  destruct (exec_stmt s ρ) as [e|ρ']; simpl; [done|apply IH].
Qed.

Lemma exec_stmt_steps s k ρ :
  rtc step (Running (s :: k) ρ) (outcome (exec_stmt s ρ) k).
Proof.
  revert k ρ. induction s as [x e|x y e|c msg|x i n body IH]
    using stmt_nested_ind; intros k ρ.
  - simpl. destruct (e ρ) as [err|v] eqn:He; simpl; apply rtc_once;
      [by apply step_assign_raise | by apply step_assign].
  - simpl. destruct (e ρ) as [err|[v w]] eqn:He; simpl; apply rtc_once;
      [by apply step_pair_raise | by apply step_pair].
  - simpl. destruct (c ρ) as [err|[|]] eqn:Hc; simpl; apply rtc_once;
      [by apply step_assert_raise | by apply step_assert_pass
       | by apply step_assert_fail].
  - rewrite exec_stmt_for. apply for_range_steps.
    by apply exec_block_steps.
Qed.

Lemma exec_steps l k ρ :
  rtc step (Running (l ++ k) ρ) (outcome (exec l ρ) k).
Proof.
  apply exec_block_steps, Forall_forall. intros s _ k' ρ'.
  apply exec_stmt_steps.
Qed.

Lemma assigned_app l1 l2 : assigned (l1 ++ l2) = assigned l1 ++ assigned l2.
Proof.
  induction l1 as [|s l1 IH]; simpl; [done|]. by rewrite <- app_assoc, IH.
Qed.

(** A name that the rest of the program does not assign keeps its value,
    at every later point of the run. *)
Lemma step_frame x k ρ k' ρ' :
  step (Running k ρ) (Running k' ρ') ->
  x ∉ assigned k -> (x ∉ assigned k') /\ (ρ' !! x = ρ !! x).
Proof.
  intros Hs. inversion Hs; subst;
    rewrite ?assigned_app; cbn [assigned]; rewrite ?assigned_stmt_for;
    cbn [assigned_stmt app];
    repeat (rewrite not_elem_of_cons || rewrite not_elem_of_app);
    intros Hx; destruct_and?; rewrite ?lookup_insert_ne by done; done.
Qed.

(** Once an exception is raised nothing runs any more. *)
Lemma raised_stuck e c : rtc step (Raised e) c -> c = Raised e.
Proof.
  intros Hs. destruct (rtc_inv _ _ Hs) as [<-|(c' & Hs' & _)]; [done|].
  inversion Hs'.
Qed.

Lemma steps_frame x k ρ k' ρ' :
  rtc step (Running k ρ) (Running k' ρ') ->
  x ∉ assigned k -> (x ∉ assigned k') /\ (ρ' !! x = ρ !! x).
Proof.
  intros Hs. remember (Running k ρ) as c eqn:Hc.
  remember (Running k' ρ') as c' eqn:Hc'.
  revert k ρ Hc. induction Hs as [c|c c1 c' Hs Hrest IH]; intros k ρ -> Hx.
  - by injection Hc' as -> ->.
  - subst c'. destruct c1 as [k1 ρ1|e].
    + destruct (step_frame _ _ _ _ _ Hs Hx) as [Hx1 Heq].
      destruct (IH eq_refl k1 ρ1 eq_refl Hx1) as [Hx' Heq'].
      split; [done|]. by rewrite Heq'.
    + by apply raised_stuck in Hrest.
Qed.

Lemma exec_frame x l ρ ρ' :
  exec l ρ = inr ρ' -> x ∉ assigned l -> ρ' !! x = ρ !! x.
Proof.
  intros He Hx. pose proof (exec_steps l [] ρ) as Hs.
  rewrite He, app_nil_r in Hs. simpl in Hs.
  by destruct (steps_frame x _ _ _ _ Hs Hx).
Qed.

(** ** Properties of the library model *)

Lemma add_arrays_zip_with (params updates : array) :
  length params = length updates ->
  add_arrays params updates = Some (zip_with Qplus params updates).
Proof.
  revert updates; induction params as [|p ps IH]; intros [|u us] Hlen;
    simpl in *; try discriminate; [done|].
  rewrite IH by lia. done.
Qed.

Lemma apply_updates_arrays (params updates : array) :
  length params = length updates ->
  apply_updates (Some params) (Some updates)
  = Some (Some (zip_with Qplus params updates)).
Proof. intros Hlen. simpl. by rewrite add_arrays_zip_with. Qed.

Lemma of_transform_follows (t : transform base_state) :
  follows_interface (of_transform t) is_base.
Proof.
  split; [done|]. intros g [b| |] Hs; try done. simpl.
  destruct (t_update t g b) as [u b']. by eexists _, _.
Qed.

Lemma chain_update_follows ts vs :
  Forall2 follows_interface ts vs ->
  forall g ss, Forall2 (fun v s => v s) vs ss ->
    exists u ss', chain_update ts g ss = Some (u, ss')
                  /\ Forall2 (fun v s => v s) vs ss'.
Proof.
  induction 1 as [|t v ts vs [_ Ht] _ IH]; intros g ss Hss.
  - inversion Hss; subst. simpl. by eexists _, _.
  - inversion Hss as [|? s ? ss0 Hv Hrest]; subst. simpl.
    destruct (Ht g s Hv) as (g' & s' & -> & Hv'). simpl.
    destruct (IH g' ss0 Hrest) as (u & ss' & -> & Hvs). simpl.
    eexists _, _. split; [done|]. by constructor.
Qed.

Lemma chain_follows ts vs :
  Forall2 follows_interface ts vs ->
  follows_interface (chain ts) (chain_valid vs).
Proof.
  intros Hts. split.
  - intros p. simpl. induction Hts as [|t v ts vs [Hi _] _ IH]; simpl;
      constructor; [apply Hi|apply IH].
  - intros g [b|ss|] Hs; try done. simpl in *.
    destruct (chain_update_follows ts vs Hts g ss Hs) as (u & ss' & -> & Hv).
    simpl. by eexists _, _.
Qed.

Lemma inject_follows r f name sched inner :
  (forall h, follows_interface (f h) inner) ->
  follows_interface (inject_hyperparams r f name sched) (inject_valid name inner).
Proof.
  intros Hf. split.
  - intros p. simpl. split; [|apply Hf].
    rewrite lookup_singleton_eq. by eexists.
  - intros g [b|ss|c hp i] Hs; try done. simpl in *.
    destruct Hs as [_ Hi].
    destruct (Hf (sched (reported_step r c))) as [_ Hu].
    destruct (Hu g i Hi) as (u & i' & -> & Hi'). simpl.
    eexists _, _. split; [done|]. simpl. split; [|done].
    rewrite lookup_singleton_eq. by eexists.
Qed.

Lemma own_state_valid t valid s :
  follows_interface t valid -> own_state t s -> valid s.
Proof.
  intros [Hi Hu]. induction 1 as [p|g s u s' _ IH Hupd]; [apply Hi|].
  destruct (Hu g s IH) as (u' & s'' & Hupd' & Hv). congruence.
Qed.

Lemma follows_interface_own t valid :
  follows_interface t valid ->
  forall s grads, own_state t s ->
    exists updates s', update t grads s = Some (updates, s') /\ own_state t s'.
Proof.
  intros Hf s g Hs. pose proof (own_state_valid _ _ _ Hf Hs) as Hv.
  destruct Hf as [_ Hu]. destruct (Hu g s Hv) as (u & s' & Hupd & _).
  exists u, s'. split; [done|]. by eapply own_update.
Qed.

Lemma optimizer_follows lr : follows_interface (optimizer lr) is_base.
Proof. apply of_transform_follows. Qed.

Lemma gradient_transform_follows sched :
  follows_interface (gradient_transform sched)
                    (chain_valid [is_base; is_base; is_base; is_base]).
Proof. apply chain_follows. repeat constructor; apply of_transform_follows. Qed.

Lemma decaying_global_norm_tx_follows :
  follows_interface decaying_global_norm_tx (inject_valid "max_norm" is_base).
Proof. apply inject_follows. intros h. apply of_transform_follows. Qed.

(** C5. The three optimizers of the notebook follow the interface: [init]
    is a function of the parameters alone and gives a state, and [update],
    given gradients and a state that the optimizer produced itself, returns
    a pair of updates and the successor state, again a state of the
    optimizer. *)
Theorem optimizers_follow_interface (lr : Q) (scheduler : schedule) :
  (forall params, own_state (optimizer lr) (init (optimizer lr) params))
  /\ answers_own_states (optimizer lr)
  /\ (forall params, own_state (gradient_transform scheduler)
                               (init (gradient_transform scheduler) params))
  /\ answers_own_states (gradient_transform scheduler)
  /\ (forall params, own_state decaying_global_norm_tx (init decaying_global_norm_tx params))
  /\ answers_own_states decaying_global_norm_tx.
Proof.
  split; [intros; apply own_init|].
  split; [intros s g; eapply follows_interface_own, optimizer_follows|].
  split; [intros; apply own_init|].
  split; [intros s g; eapply follows_interface_own, gradient_transform_follows|].
  split; [intros; apply own_init|].
  intros s g; eapply follows_interface_own, decaying_global_norm_tx_follows.
Qed.

(** After [n + 1] updates the state of a transform with an injected
    hyperparameter holds the schedule's value at the step reported for the
    last update. *)
Lemma feed_inject r (f : Q -> transform base_state) name sched g n :
  forall c hp b,
    exists b',
      feed (inject_hyperparams r (fun h => of_transform (f h)) name sched) g
           (S n) (InjectHyperparamsState c hp (BaseState b))
      = Some (InjectHyperparamsState (c + S n)
                {[ name := sched (reported_step r (c + n)) ]} (BaseState b')).
Proof.
  induction n as [|n IH]; intros c hp b.
  - simpl. destruct (t_update _ g b) as [u b']. simpl.
    exists b'. by rewrite Nat.add_0_r, Nat.add_1_r.
  - change (feed ?t g (S (S n)) ?s)
      with ('(_, s') ← update t g s; feed t g (S n) s').
    cbn [update inject_hyperparams of_transform].
    destruct (t_update _ g b) as [u b']. cbn [mbind option_bind].
    destruct (IH (S c) {[ name := sched (reported_step r c) ]} b') as [b'' ->].
    exists b''.
    replace (S c + S n)%nat with (c + S (S n))%nat by lia.
    by replace (S c + n)%nat with (c + S n)%nat by lia.
Qed.

Lemma linear_schedule_start : linear_schedule 1 0 99 0 == 1.
Proof. reflexivity. Qed.

Lemma linear_schedule_end (k : nat) :
  (99 <= k)%nat -> linear_schedule 1 0 99 k == 0.
Proof.
  intros Hk. unfold linear_schedule. rewrite Nat.min_r by done. reflexivity.
Qed.

(** The hyperparameter of the decaying clipping transform before any
    update and after 100 of them. *)
Lemma decaying_global_norm_tx_max_norm :
  (exists h, hyperparam (init decaying_global_norm_tx None) "max_norm" = Some h /\ h == 1)
  /\ (exists s h, feed decaying_global_norm_tx None 100 (init decaying_global_norm_tx None) = Some s
                  /\ hyperparam s "max_norm" = Some h /\ h == 0).
Proof.
  split.
  - eexists. split; [apply lookup_singleton_eq|]. apply linear_schedule_start.
  - unfold decaying_global_norm_tx. cbn [init inject_hyperparams of_transform].
    destruct (feed_inject inject_reading clip_by_global_norm "max_norm"
                (linear_schedule 1 0 99) None 99 0 {[ "max_norm" := linear_schedule 1 0 99 0 ]}
                (t_init (clip_by_global_norm (linear_schedule 1 0 99 0)) None))
      as [b' Hfeed].
    eexists _, _. split; [exact Hfeed|]. split; [apply lookup_singleton_eq|].
    apply linear_schedule_end. destruct inject_reading; simpl; lia.
Qed.

(** How the two readings differ: after 99 updates the reported value is
    still 1/99 under the first and already 0 under the second. *)
Lemma max_norm_after_99_updates (r : reading) :
  exists s h,
    feed (inject_hyperparams r (fun m => of_transform (clip_by_global_norm m))
            "max_norm" (linear_schedule 1 0 99)) None 99
         (init (inject_hyperparams r (fun m => of_transform (clip_by_global_norm m))
            "max_norm" (linear_schedule 1 0 99)) None) = Some s
    /\ hyperparam s "max_norm" = Some h
    /\ h == match r with AtCall => 1 # 99 | AfterCall => 0 end.
Proof.
  cbn [init inject_hyperparams of_transform].
  destruct (feed_inject r clip_by_global_norm "max_norm"
              (linear_schedule 1 0 99) None 98 0 {[ "max_norm" := linear_schedule 1 0 99 0 ]}
              (t_init (clip_by_global_norm (linear_schedule 1 0 99 0)) None))
    as [b' Hfeed].
  eexists _, _. split; [exact Hfeed|]. split; [apply lookup_singleton_eq|].
  by destruct r.
Qed.

(** C4. [apply_updates] is additive and pure: on an array of parameters and
    an array of updates of the same shape it returns their elementwise sum;
    it is a function of its two arguments, and the statement
    [params = optax.apply_updates(params, updates)] does nothing but bind
    the sum to [params]: the array of updates and every other variable stay
    as they were. *)
Theorem apply_updates_adds (params updates : array) :
  length params = length updates ->
  apply_updates (Some params) (Some updates)
  = Some (Some (zip_with Qplus params updates))
  /\ length (zip_with Qplus params updates) = length params
  /\ (forall i p u,
        params !! i = Some p -> updates !! i = Some u ->
        zip_with Qplus params updates !! i = Some (p + u))
  /\ (forall ρ : env,
        ρ !! "params" = Some (VArray params) ->
        ρ !! "updates" = Some (VArray updates) ->
        exec_stmt (Assign "params"
                     (call_apply_updates (Var "params") (Var "updates"))) ρ
        = inr (<["params" := VArray (zip_with Qplus params updates)]> ρ)).
Proof.
  intros Hlen.
  pose proof (apply_updates_arrays params updates Hlen) as Happ.
  split; [done|]. split; [by apply length_zip_with_l_eq|]. split.
  - intros i p u Hp Hu. rewrite lookup_zip_with, Hp. simpl. by rewrite Hu.
  - intros ρ Hp Hu. unfold exec_stmt, call_apply_updates, Var.
    rewrite Hp, Hu. cbn [mbind result_bind as_pytree]. rewrite Happ. done.
Qed.

(** ** The data is frozen *)

Lemma exec_app_inr l1 l2 ρ ρ' :
  exec (l1 ++ l2) ρ = inr ρ' ->
  exists ρ1, exec l1 ρ = inr ρ1 /\ exec l2 ρ1 = inr ρ'.
Proof.
  rewrite exec_app. destruct (exec l1 ρ) as [e|ρ1]; [done|]. by exists ρ1.
Qed.

Lemma exec_assign_const x v rest ρ ρ' :
  x ∉ assigned rest ->
  exec (Assign x (Const v) :: rest) ρ = inr ρ' -> ρ' !! x = Some v.
Proof.
  intros Hx He. change (exec rest (<[x := v]> ρ) = inr ρ') in He.
  rewrite (exec_frame x _ _ _ He Hx). apply lookup_insert_eq.
Qed.

Lemma cell_adam_params ρ ρ' :
  exec cell_adam ρ = inr ρ' -> ρ' !! "params" = Some (VArray [0; 0]).
Proof.
  change cell_adam with (take 2 cell_adam ++ drop 2 cell_adam).
  intros (ρ1 & _ & He)%exec_app_inr.
  apply exec_assign_const in He; [done|].
  simpl. rewrite not_elem_of_cons. split; [done|apply not_elem_of_nil].
Qed.

Lemma cell_chain_init_params ρ ρ' :
  exec cell_chain_init ρ = inr ρ' -> ρ' !! "params" = Some (VArray [0; 0]).
Proof.
  intros He. apply exec_assign_const in He; [done|].
  simpl. rewrite not_elem_of_cons. split; [done|apply not_elem_of_nil].
Qed.

(** C10. The data is created once and shared: [xs] and [ys] are assigned in
    the data cell and by no later statement, so that at every later point
    of the run, inside the loops too, they have the values the data cell
    gave them; each of the two training loops directly follows a cell that
    leaves [params] at [[0.0, 0.0]]; and the two loops and their assertions
    are the same code but for the name of the optimizer. *)
Theorem dataset_frozen_and_shared :
  notebook = cell_data ++ after_data
  /\ assigned cell_data = ["key"; "target_params"; "xs"; "ys"]
  /\ ("xs" ∉ assigned after_data) /\ ("ys" ∉ assigned after_data)
  /\ (forall ρ k ρ',
        rtc step (Running after_data ρ) (Running k ρ') ->
        ρ' !! "xs" = ρ !! "xs" /\ ρ' !! "ys" = ρ !! "ys")
  /\ (exists rest,
        after_data = cell_adam ++ loop_adam :: assert_adam :: cell_chain
                     ++ cell_chain_init ++ loop_chain :: assert_chain :: rest)
  /\ (forall ρ ρ', exec cell_adam ρ = inr ρ' ->
                   ρ' !! "params" = Some (VArray [0; 0]))
  /\ (forall ρ ρ', exec cell_chain_init ρ = inr ρ' ->
                   ρ' !! "params" = Some (VArray [0; 0]))
  /\ loop_adam = training_loop "optimizer"
  /\ loop_chain = training_loop "gradient_transform"
  /\ assert_adam = assert_chain.
Proof.
  assert (Hxs : "xs" ∉ assigned after_data).
  { cbn. repeat (rewrite not_elem_of_cons; split; [done|]).
    apply not_elem_of_nil. }
  assert (Hys : "ys" ∉ assigned after_data).
  { cbn. repeat (rewrite not_elem_of_cons; split; [done|]).
    apply not_elem_of_nil. }
  split; [done|]. split; [done|]. split; [done|]. split; [done|].
  split.
  { intros ρ k ρ' Hs. split.
    - by destruct (steps_frame "xs" _ _ _ _ Hs Hxs).
    - by destruct (steps_frame "ys" _ _ _ _ Hs Hys). }
  split; [by eexists|].
  split; [apply cell_adam_params|]. split; [apply cell_chain_init_params|].
  done.
Qed.

(** ** The run of the notebook *)

Ltac run_step :=
  unfold call_init, call_update, call_grad_compute_loss, call_apply_updates,
    call_allclose, hyperparam_eq, Var, Const;
  cbn [exec exec_stmt mbind result_bind as_float as_key as_array as_matrix
       as_schedule as_transform as_state as_pytree of_pytree raising];
  repeat (rewrite lookup_insert_eq || (rewrite lookup_insert_ne by done)
          || match goal with
             | H : ?m !! ?k = Some _ |- context [?m !! ?k] => rewrite H
             end).

Ltac run := repeat (progress run_step).

Lemma grad_compute_loss_total (p : array) (X : list (list Q)) (Y : array) rows :
  has_shape X (S rows) (length p) -> length Y = S rows ->
  exists g, grad_compute_loss p X Y = Some g /\ length g = length p.
Proof.
  intros [Hrows Hcols] HY. unfold grad_compute_loss.
  destruct (mapM_is_Some_2
              (fun j => snd <$> compute_loss (seed j p) (map lift X) (lift Y))
              (seq 0 (length p))) as [g Hg].
  - apply Forall_forall. intros j _. simpl. apply fmap_is_Some.
    apply compute_loss_total.
    + apply Forall_map. eapply Forall_impl; [exact Hcols|].
      intros r Hr. simpl. unfold seed, lift.
      by rewrite length_imap, length_map.
    + unfold lift. rewrite !length_map. lia.
    + destruct X; [discriminate|done].
  - exists g. split; [done|].
    apply mapM_Some_1, Forall2_length in Hg. by rewrite length_seq in Hg.
Qed.

Lemma of_transform_keeps_shape (t : transform base_state) :
  transform_keeps_shape t -> keeps_shape (of_transform t) is_base.
Proof.
  intros Ht g [b| |] u s' Hs; try done. simpl.
  specialize (Ht g b). destruct (t_update t g b) as [u' b'].
  by intros [= <- <-].
Qed.

Lemma same_shape_trans a b c : same_shape a b -> same_shape b c -> same_shape a c.
Proof. destruct a, b, c; simpl; try done. congruence. Qed.

Lemma chain_update_keeps_shape ts vs :
  Forall2 (fun t v => keeps_shape t v) ts vs ->
  forall g ss u ss',
    Forall2 (fun v s => v s) vs ss ->
    chain_update ts g ss = Some (u, ss') -> same_shape g u.
Proof.
  induction 1 as [|t v ts vs Ht _ IH]; intros g ss u ss' Hss.
  - inversion Hss; subst. simpl. intros [= <- <-]. by destruct g.
  - inversion Hss as [|? s ? ss0 Hv Hrest]; subst. simpl.
    destruct (update t g s) as [[g' s']|] eqn:Hupd; [|done]. simpl.
    destruct (chain_update ts g' ss0) as [[u' r]|] eqn:Hch; [|done]. simpl.
    intros [= <- <-]. eapply same_shape_trans; [by eapply Ht|by eapply IH].
Qed.

Lemma chain_keeps_shape ts vs :
  Forall2 (fun t v => keeps_shape t v) ts vs ->
  keeps_shape (chain ts) (chain_valid vs).
Proof.
  intros Hts g [b|ss|] u s' Hs; try done. simpl in *.
  destruct (chain_update ts g ss) as [[u' r]|] eqn:Hch; [|done]. simpl.
  intros [= <- <-]. by eapply chain_update_keeps_shape.
Qed.

(** One pass through the body of a training loop. *)
Lemma training_body_ok tx t valid j ρ :
  tx ∉ ["_"; "grads"; "updates"; "opt_state"; "params"] ->
  follows_interface t valid -> keeps_shape t valid ->
  training_inv tx t valid ρ ->
  exists ρ',
    exec [Assign "grads"
            (call_grad_compute_loss (Var "params") (Var "xs") (Var "ys"));
          AssignPair "updates" "opt_state"
            (call_update (Var tx) (Var "grads") (Var "opt_state"));
          Assign "params" (call_apply_updates (Var "params") (Var "updates"))]
         (<["_" := VInt j]> ρ) = inr ρ'
    /\ training_inv tx t valid ρ'.
Proof.
  rewrite !not_elem_of_cons.
  intros (? & ? & ? & ? & ? & _) [_ Hupd] Hshape
    (Htx & (X & HX & HXs) & (Y & HY & HYl) & (p & Hp & Hpl) & (s & Hs & Hv)).
  destruct (grad_compute_loss_total p X Y 15) as (g & Hg & Hgl);
    [by rewrite Hpl|done|].
  destruct (Hupd (Some g) s Hv) as (u & s' & Hu & Hv').
  pose proof (Hshape _ _ _ _ Hv Hu) as Hsh.
  destruct u as [u|]; [simpl in Hsh|done].
  run. rewrite Hg. run. rewrite Hu. run.
  rewrite apply_updates_arrays by lia. run.
  eexists. split; [done|].
  repeat split; run; eauto.
  eexists. split; [done|]. rewrite length_zip_with_l_eq; lia.
Qed.

Lemma training_loop_ok tx t valid ρ :
  tx ∉ ["_"; "grads"; "updates"; "opt_state"; "params"] ->
  follows_interface t valid -> keeps_shape t valid ->
  training_inv tx t valid ρ ->
  exists ρ', exec_stmt (training_loop tx) ρ = inr ρ' /\ training_inv tx t valid ρ'.
Proof.
  intros Htx Hf Hk. unfold training_loop. rewrite exec_stmt_for.
  generalize 1000%nat as n. generalize 0%Z as i. intros i n.
  revert i ρ. induction n as [|n IH]; intros i ρ Hinv; cbn [for_range];
    [eauto|].
  destruct (training_body_ok tx t valid i ρ Htx Hf Hk Hinv) as (ρ1 & Hb & Hinv1).
  rewrite Hb. cbn [mbind result_bind]. by apply IH.
Qed.

Lemma exec_assert_cons c msg rest ρ b :
  c ρ = inr b ->
  exec (Assert c msg :: rest) ρ
  = if b then exec rest ρ else inl (AssertionError msg).
Proof. intros Hc. cbn [exec exec_stmt]. rewrite Hc. by destruct b. Qed.

Lemma not_elem_of_loop_vars x :
  x ≠ "_" -> x ≠ "grads" -> x ≠ "updates" -> x ≠ "opt_state" -> x ≠ "params" ->
  x ∉ ["_"; "grads"; "updates"; "opt_state"; "params"].
Proof. intros. rewrite !not_elem_of_cons. repeat split; try done. apply not_elem_of_nil. Qed.

Lemma cond_close_after_loop tx t valid ρ :
  training_inv tx t valid ρ ->
  ρ !! "target_params" = Some (VFloat target_params) ->
  exists b, cond_close ρ = inr b.
Proof.
  intros (_ & _ & _ & (p & Hp & _) & _) Ht. unfold cond_close. run. eauto.
Qed.

(** The third part of the notebook: the decaying clipping threshold. *)
Lemma inject_body t ρ s u s1 :
  ρ !! "decaying_global_norm_tx" = Some (VTransform t) ->
  ρ !! "opt_state" = Some (VState s) ->
  update t None s = Some (u, s1) ->
  exec [AssignPair "_" "opt_state"
          (call_update (Var "decaying_global_norm_tx") (Const VNone)
                       (Var "opt_state"))] ρ
  = inr (<["opt_state" := VState s1]> (<["_" := of_pytree u]> ρ)).
Proof. intros Ht Hs Hu. run. rewrite Hu. by run. Qed.

Lemma loop_inject_feed t n :
  forall i ρ s s',
    ρ !! "decaying_global_norm_tx" = Some (VTransform t) ->
    ρ !! "opt_state" = Some (VState s) ->
    feed t None n s = Some s' ->
    exists ρ',
      exec_stmt (For "_" i n
        [AssignPair "_" "opt_state"
           (call_update (Var "decaying_global_norm_tx") (Const VNone)
                        (Var "opt_state"))]) ρ = inr ρ'
      /\ ρ' !! "opt_state" = Some (VState s').
Proof.
  induction n as [|n IH]; intros i ρ s s' Ht Hs Hfeed; rewrite exec_stmt_for;
    cbn [for_range feed] in *.
  - injection Hfeed as <-. eauto.
  - destruct (update t None s) as [[u s1]|] eqn:Hu; [|done].
    cbn [mbind option_bind] in Hfeed.
    rewrite (inject_body t _ s u s1); [|by run..|done].
    cbn [mbind result_bind]. rewrite <- exec_stmt_for.
    eapply IH; [| |done]; by run.
Qed.

Lemma inject_cells_run ρ :
  exists ρ3 ρ4,
    exec seg_inject ρ = inr ρ3 /\ cond_start ρ3 = inr true
    /\ exec seg_decay ρ3 = inr ρ4 /\ cond_end ρ4 = inr true.
Proof.
  destruct decaying_global_norm_tx_max_norm
    as [(h0 & Hh0 & Hq0) (s & h & Hfeed & Hh & Hq)].
  unfold seg_inject, cell_inject, seg_decay, cond_start, cond_end. run.
  eexists. 
  destruct (loop_inject_feed decaying_global_norm_tx 100 0
              (<["opt_state" := VState (init decaying_global_norm_tx None)]>
                 (<["decaying_global_norm_tx" := VTransform decaying_global_norm_tx]> ρ))
              _ s ltac:(by run) ltac:(by run) Hfeed) as (ρ4 & Hloop & Hst).
  exists ρ4. split; [done|]. split.
  { run. rewrite Hh0. run. f_equal. by apply Qeq_bool_iff. }
  unfold loop_inject. rewrite Hloop. run. split; [done|].
  rewrite Hh. run. f_equal. by apply Qeq_bool_iff.
Qed.

(** C3. The clipping transform with the injected schedule
    [linear_schedule(1.0, 0.0, transition_steps=99)]: right after
    [init(None)] the state's [hyperparams['max_norm']] is 1, and after 100
    calls of [update(None, opt_state)], each fed the state the one before
    returned, it is 0; so both assertions of the last cell pass, from
    whatever namespace the cell is run.  This holds for both readings of the
    step the reported value belongs to. *)
Theorem max_norm_starts_at_1_ends_at_0 :
  (exists h, hyperparam (init decaying_global_norm_tx None) "max_norm" = Some h /\ h == 1)
  /\ (exists s h, feed decaying_global_norm_tx None 100 (init decaying_global_norm_tx None) = Some s
                  /\ hyperparam s "max_norm" = Some h /\ h == 0)
  /\ (forall ρ, exists ρ',
        exec (cell_inject ++ [assert_start; loop_inject; assert_end]) ρ = inr ρ').
Proof.
  destruct decaying_global_norm_tx_max_norm as [Hstart Hend].
  split; [done|]. split; [done|]. intros ρ.
  destruct (inject_cells_run ρ) as (ρ3 & ρ4 & H3 & Hc3 & H4 & Hc4).
  exists ρ4. rewrite exec_app. fold seg_inject. rewrite H3.
  cbn [mbind result_bind]. unfold assert_start. fold cond_start.
  rewrite (exec_assert_cons _ _ _ _ _ Hc3).
  change (exec (loop_inject :: [assert_end]) ρ3)
    with (exec (seg_decay ++ [assert_end]) ρ3).
  rewrite exec_app, H4. cbn [mbind result_bind].
  unfold assert_end. fold cond_end.
  by rewrite (exec_assert_cons _ _ _ _ _ Hc4).
Qed.

(** ** What the loops compute *)






(** ** The assertions *)

Lemma allclose_target (p : array) :
  allclose p target_params = true
  <-> Forall (fun x => Qabs (x - (1 # 2)) <= 501 # 100000000) p.
Proof.
  assert (Htol : atol + rtol * Qabs target_params == 501 # 100000000)
    by reflexivity.
  unfold allclose. induction p as [|x p IH]; cbn [forallb].
  - split; [constructor|done].
  - rewrite andb_true_iff, Forall_cons, IH, Qle_bool_iff, Htol. done.
Qed.

(** X12. The assertion after a training loop passes exactly when every
    parameter is within 5.01e-6 of 0.5 (the default tolerances of
    [jnp.allclose] at the target 0.5); otherwise it raises the
    [AssertionError] with the notebook's message. *)
Theorem retrieval_assertion_tolerance (ρ : env) (p : array) :
  ρ !! "params" = Some (VArray p) ->
  ρ !! "target_params" = Some (VFloat target_params) ->
  (exec_stmt assert_adam ρ = inr ρ
   <-> Forall (fun x => Qabs (x - (1 # 2)) <= 501 # 100000000) p)
  /\ (exec_stmt assert_adam ρ = inr ρ
      \/ exec_stmt assert_adam ρ = inl (AssertionError retrieve_msg)).
Proof.
  intros Hp Ht. unfold assert_adam. run.
  rewrite <- allclose_target.
  destruct (allclose p target_params); split; try split; try done; eauto.
Qed.

(** ** The last loop *)

Lemma inject_body_step t ρ s :
  ρ !! "decaying_global_norm_tx" = Some (VTransform t) ->
  ρ !! "opt_state" = Some (VState s) ->
  exec [AssignPair "_" "opt_state"
          (call_update (Var "decaying_global_norm_tx") (Const VNone)
                       (Var "opt_state"))] ρ
  = match update t None s with
    | Some (u, s1) =>
        inr (<["opt_state" := VState s1]> (<["_" := of_pytree u]> ρ))
    | None => inl TypeError
    end.
Proof.
  intros Ht Hs. run. destruct (update t None s) as [[u s1]|]; by run.
Qed.

Lemma loop_inject_refines t n :
  forall i ρ s,
    ρ !! "decaying_global_norm_tx" = Some (VTransform t) ->
    ρ !! "opt_state" = Some (VState s) ->
    match feed t None n s with
    | Some s' =>
        exists ρ',
          for_range
            (exec [AssignPair "_" "opt_state"
                     (call_update (Var "decaying_global_norm_tx") (Const VNone)
                                  (Var "opt_state"))]) "_" i n ρ = inr ρ'
          /\ ρ' !! "opt_state" = Some (VState s')
    | None =>
        for_range
          (exec [AssignPair "_" "opt_state"
                   (call_update (Var "decaying_global_norm_tx") (Const VNone)
                                (Var "opt_state"))]) "_" i n ρ = inl TypeError
    end.
Proof.
  induction n as [|n IH]; intros i ρ s Ht Hs; cbn [feed for_range]; [eauto|].
  rewrite (inject_body_step t _ s) by (by run).
  destruct (update t None s) as [[u s1]|]; [|done].
  cbn [mbind option_bind result_bind]. apply IH; by run.
Qed.

(** X13. The last loop, whenever its 100 calls of [update] on [None] go
    through, each fed the state the one before returned: it leaves in
    [opt_state] the state the last call returned, and it assigns to [_] and
    [opt_state] only. *)
Theorem last_loop_computes (ρ : env) t s s' :
  ρ !! "decaying_global_norm_tx" = Some (VTransform t) ->
  ρ !! "opt_state" = Some (VState s) ->
  feed t None 100 s = Some s' ->
  exists ρ',
    exec_stmt loop_inject ρ = inr ρ'
    /\ ρ' !! "opt_state" = Some (VState s')
    /\ (forall x, x ≠ "_" -> x ≠ "opt_state" -> ρ' !! x = ρ !! x).
Proof.
  intros Ht Hs Hfeed. unfold loop_inject. rewrite exec_stmt_for.
  pose proof (loop_inject_refines t 100 0 ρ s Ht Hs) as Hloop.
  rewrite Hfeed in Hloop.
  destruct Hloop as (ρ' & Hrun & Hs'). exists ρ'.
  split; [done|]. split; [done|]. intros x Hx1 Hx2.
  apply (exec_frame x [loop_inject] ρ ρ').
  - cbn [exec]. unfold loop_inject. by rewrite exec_stmt_for, Hrun.
  - unfold loop_inject. cbn [assigned assigned_stmt app].
    rewrite !not_elem_of_cons. repeat split; try done. apply not_elem_of_nil.
Qed.


(** ** The two training runs

    What the notebook needs of the library for its loops to go through: the
    random draw has the shape asked for, and the transforms return updates
    of the shape of the gradients. *)
Hypothesis random_normal_shape :
  forall k rows cols, has_shape (random_normal k rows cols) rows cols.
Hypothesis adam_keeps_shape : forall lr, transform_keeps_shape (adam lr).
Hypothesis clip_keeps_shape :
  forall max_norm, transform_keeps_shape (clip_by_global_norm max_norm).
Hypothesis scale_by_adam_keeps_shape : transform_keeps_shape scale_by_adam.
Hypothesis scale_by_schedule_keeps_shape :
  forall f, transform_keeps_shape (scale_by_schedule f).
Hypothesis scale_keeps_shape : forall c, transform_keeps_shape (scale c).

Lemma gradient_transform_keeps_shape sched :
  keeps_shape (gradient_transform sched)
              (chain_valid [is_base; is_base; is_base; is_base]).
Proof.
  apply chain_keeps_shape.
  repeat constructor; apply of_transform_keeps_shape; auto.
Qed.

Lemma seg_adam_runs ρ :
  exists ρ1 b1,
    exec seg_adam ρ = inr ρ1 /\ cond_close ρ1 = inr b1 /\ data_ready ρ1.
Proof.
  unfold seg_adam. rewrite app_assoc, exec_app.
  unfold cell_data, cell_adam. cbn [app]. run.
  match goal with |- context [exec_stmt loop_adam ?ρ8] => set (ρ0 := ρ8) end.
  pose proof (random_normal_shape (PRNGKey 42) 16 2) as Hshape.
  assert (Hinv : training_inv "optimizer" (optimizer start_learning_rate) is_base ρ0).
  { unfold training_inv, ρ0. run. split; [done|].
    split; [eauto|]. split; [eexists; split; [done|]|].
    { rewrite gen_ys_length. apply Hshape. }
    split; [by eexists|]. by eexists. }
  destruct (training_loop_ok "optimizer" _ _ ρ0
              ltac:(by apply not_elem_of_loop_vars)
              (optimizer_follows _)
              (of_transform_keeps_shape _ (adam_keeps_shape _)) Hinv)
    as (ρ1 & Hloop & Hinv1).
  assert (Hframe : forall x, x ∉ assigned [loop_adam] -> ρ1 !! x = ρ0 !! x).
  { intros x Hx. apply (exec_frame x [loop_adam]); [|done].
    cbn [exec]. fold (training_loop "optimizer") in Hloop.
    change loop_adam with (training_loop "optimizer"). by rewrite Hloop. }
  assert (Ht : ρ1 !! "target_params" = Some (VFloat target_params)).
  { rewrite Hframe; [unfold ρ0; by run|].
    cbn. repeat (rewrite not_elem_of_cons; split; [done|]).
    apply not_elem_of_nil. }
  destruct (cond_close_after_loop _ _ _ _ Hinv1 Ht) as [b1 Hb1].
  exists ρ1, b1. split.
  { change loop_adam with (training_loop "optimizer"). by rewrite Hloop. }
  split; [done|].
  destruct Hinv1 as (_ & HX & HY & _ & _).
  split; [done|]. split; [done|]. split; [done|].
  rewrite Hframe; [unfold ρ0; by run|].
  cbn. repeat (rewrite not_elem_of_cons; split; [done|]).
  apply not_elem_of_nil.
Qed.

Lemma seg_chain_runs ρ :
  data_ready ρ ->
  exists ρ2 b2, exec seg_chain ρ = inr ρ2 /\ cond_close ρ2 = inr b2.
Proof.
  intros ((X & HX & HXs) & (Y & HY & HYl) & Ht & Hlr).
  unfold seg_chain. rewrite app_assoc, exec_app.
  unfold cell_chain, cell_chain_init. cbn [app]. run.
  match goal with |- context [exec_stmt loop_chain ?ρ8] => set (ρ0 := ρ8) end.
  set (sched := exponential_decay start_learning_rate 1000 (99 # 100)) in *.
  assert (Hinv : training_inv "gradient_transform" (gradient_transform sched)
                   (chain_valid [is_base; is_base; is_base; is_base]) ρ0).
  { unfold training_inv, ρ0. run. split; [done|].
    split; [eauto|]. split; [eauto|]. split; [by eexists|].
    eexists. split; [done|]. apply gradient_transform_follows. }
  destruct (training_loop_ok "gradient_transform" _ _ ρ0
              ltac:(by apply not_elem_of_loop_vars)
              (gradient_transform_follows _)
              (gradient_transform_keeps_shape _) Hinv)
    as (ρ2 & Hloop & Hinv2).
  assert (Ht2 : ρ2 !! "target_params" = Some (VFloat target_params)).
  { rewrite (exec_frame "target_params" [loop_chain] ρ0 ρ2).
    - unfold ρ0. by run.
    - cbn [exec]. change loop_chain with (training_loop "gradient_transform").
      by rewrite Hloop.
    - cbn. repeat (rewrite not_elem_of_cons; split; [done|]).
      apply not_elem_of_nil. }
  destruct (cond_close_after_loop _ _ _ _ Hinv2 Ht2) as [b2 Hb2].
  exists ρ2, b2. split; [|done].
  change loop_chain with (training_loop "gradient_transform"). by rewrite Hloop.
Qed.



(** C7. The notebook fails by a failed assertion only.  An assertion raises
    [AssertionError] exactly when its condition is false and lets the run go
    on otherwise; an exception ends the run, whatever follows, and nothing
    catches it; between the assertions the notebook runs without error, so it
    ends with the first assertion whose condition is false, and ends
    normally when all four conditions hold. *)
Theorem notebook_fails_only_by_assertion :
  (forall c msg rest ρ b,
      c ρ = inr b ->
      exec (Assert c msg :: rest) ρ
      = if b then exec rest ρ else inl (AssertionError msg))
  /\ (forall l1 l2 ρ e, exec l1 ρ = inl e -> exec (l1 ++ l2) ρ = inl e)
  /\ (forall e c, rtc step (Raised e) c -> c = Raised e)
  /\ notebook = seg_adam ++ assert_adam :: seg_chain ++ assert_chain
                :: seg_inject ++ assert_start :: seg_decay ++ [assert_end]
  /\ exists ρ1 b1 ρ2 b2 ρ3 b3 ρ4 b4,
       exec seg_adam ∅ = inr ρ1 /\ cond_close ρ1 = inr b1
       /\ exec seg_chain ρ1 = inr ρ2 /\ cond_close ρ2 = inr b2
       /\ exec seg_inject ρ2 = inr ρ3 /\ cond_start ρ3 = inr b3
       /\ exec seg_decay ρ3 = inr ρ4 /\ cond_end ρ4 = inr b4
       /\ exec notebook ∅
          = if b1 then
              if b2 then
                if b3 then
                  if b4 then inr ρ4
                  else inl (AssertionError "Max norm should end at 0.0")
                else inl (AssertionError "Max norm should start at 1.0")
              else inl (AssertionError retrieve_msg)
            else inl (AssertionError retrieve_msg).
Proof.
  split; [apply exec_assert_cons|]. split; [apply exec_raise_app|].
  split; [apply raised_stuck|]. split; [done|].
  destruct (seg_adam_runs ∅) as (ρ1 & b1 & H1 & Hc1 & Hready).
  destruct (seg_chain_runs ρ1 Hready) as (ρ2 & b2 & H2 & Hc2).
  destruct (inject_cells_run ρ2) as (ρ3 & ρ4 & H3 & Hc3 & H4 & Hc4).
  exists ρ1, b1, ρ2, b2, ρ3, true, ρ4, true.
  repeat (split; [done|]).
  change notebook with
    (seg_adam ++ assert_adam :: seg_chain ++ assert_chain
     :: seg_inject ++ assert_start :: seg_decay ++ [assert_end]).
  rewrite exec_app, H1. cbn [mbind result_bind].
  unfold assert_adam. fold cond_close.
  rewrite (exec_assert_cons _ _ _ _ _ Hc1). destruct b1; [|done].
  rewrite exec_app, H2. cbn [mbind result_bind].
  unfold assert_chain. fold cond_close.
  rewrite (exec_assert_cons _ _ _ _ _ Hc2). destruct b2; [|done].
  rewrite exec_app, H3. cbn [mbind result_bind].
  unfold assert_start. fold cond_start.
  rewrite (exec_assert_cons _ _ _ _ _ Hc3).
  rewrite exec_app, H4. cbn [mbind result_bind].
  unfold assert_end. fold cond_end.
  by rewrite (exec_assert_cons _ _ _ _ _ Hc4).
Qed.

End Notebook.

Arguments VNone {key base_state}.
Arguments VInt {key base_state} n.
Arguments VFloat {key base_state} q.
Arguments VKey {key base_state} k.
Arguments VArray {key base_state} a.
Arguments VMatrix {key base_state} m.
Arguments VSchedule {key base_state} f.
Arguments VTransform {key base_state} t.
Arguments VState {key base_state} s.
Arguments Assign {key base_state} x e.
Arguments AssignPair {key base_state} x y e.
Arguments Assert {key base_state} c msg.
Arguments For {key base_state} x start n body.
Arguments Running {key base_state} k ρ.
Arguments Raised {key base_state} e.
Arguments exec {key base_state} l ρ.
Arguments exec_stmt {key base_state} s ρ.
Arguments step {key base_state} _ _.

(** ** The assumptions hold on the small instance *)

Lemma toy_normal_shape k rows cols : has_shape (toy_normal k rows cols) rows cols.
Proof.
  unfold has_shape, toy_normal. split; [apply repeat_length|].
  apply Forall_forall. intros r Hr%list_elem_of_In%repeat_spec. subst r.
  apply repeat_length.
Qed.

Lemma toy_scale_keeps_shape c : transform_keeps_shape unit (toy_scale c).
Proof. intros [g|] []; simpl; [by rewrite length_map|done]. Qed.

Lemma compute_loss_target_is_minimum_witness :
  has_shape (toy_normal 42 16 2) 16 2
  /\ exists v,
       compute_loss [target_params; target_params] (toy_normal 42 16 2)
                    (gen_ys (toy_normal 42 16 2) target_params) = Some v
       /\ v == 0.
Proof.
  assert (H : has_shape (toy_normal 42 16 2) 16 2).
  { split; [reflexivity|]. vm_compute. repeat constructor. }
  split; [exact H|].
  exact (proj1 (compute_loss_target_is_minimum (toy_normal 42 16 2) H)).
Defined.

Lemma apply_updates_adds_witness :
  length [0; 0] = length [1 # 10; - (1 # 10)]
  /\ apply_updates (Some [0; 0]) (Some [1 # 10; - (1 # 10)])
     = Some (Some (zip_with Qplus [0; 0] [1 # 10; - (1 # 10)])).
Proof.
  assert (H : length [0; 0] = length [1 # 10; - (1 # 10)]) by reflexivity.
  split; [exact H|].
  exact (proj1 (apply_updates_adds Z unit [0; 0] [1 # 10; - (1 # 10)] H)).
Defined.

Lemma notebook_fails_only_by_assertion_witness :
  (forall k rows cols, has_shape (toy_normal k rows cols) rows cols)
  /\ (forall c, transform_keeps_shape unit (toy_scale c))
  /\ exists r,
       exec (notebook Z id toy_normal unit
               (fun lr => toy_scale (- lr)) (fun _ => toy_scale 1)
               (toy_scale 1) (fun f => toy_scale (f 0%nat)) toy_scale
               toy_decay AtCall) ∅ = r
       /\ match r with
          | inr _ => True
          | inl (AssertionError _) => True
          | inl _ => False
          end.
Proof.
  split; [exact toy_normal_shape|]. split; [exact toy_scale_keeps_shape|].
  destruct (notebook_fails_only_by_assertion Z id toy_normal unit
              (fun lr => toy_scale (- lr)) (fun _ => toy_scale 1)
              (toy_scale 1) (fun f => toy_scale (f 0%nat)) toy_scale
              toy_decay AtCall
              toy_normal_shape
              (fun lr => toy_scale_keeps_shape (- lr))
              (fun _ => toy_scale_keeps_shape 1)
              (toy_scale_keeps_shape 1)
              (fun f => toy_scale_keeps_shape (f 0%nat))
              toy_scale_keeps_shape)
    as (_ & _ & _ & _ & ρ1 & b1 & ρ2 & b2 & ρ3 & b3 & ρ4 & b4 & Hrun).
  destruct Hrun as (_ & _ & _ & _ & _ & _ & _ & _ & Hrun).
  eexists. split; [exact Hrun|].
  destruct b1, b2, b3, b4; exact I.
Defined.

(** ** The further properties on concrete inputs *)

Lemma data_lies_on_model_witness :
  has_shape (toy_normal 42 3 4) 3 4
  /\ exists preds,
       network (repeat (1 # 2) 4) (toy_normal 42 3 4) = Some preds
       /\ Forall2 Qeq preds (gen_ys (toy_normal 42 3 4) (1 # 2)).
Proof.
  assert (H : has_shape (toy_normal 42 3 4) 3 4).
  { split; [reflexivity|]. vm_compute. repeat constructor. }
  split; [exact H|].
  exact (data_lies_on_model (toy_normal 42 3 4) (1 # 2) 3 4 H).
Defined.

Lemma grad_compute_loss_formula_witness :
  has_shape [[1; 0]; [0; 1]] 2 2 /\ length [1; 1 : Q] = 2%nat
  /\ exists g0 g1,
       grad_compute_loss [0; 0] [[1; 0]; [0; 1]] [1; 1] = Some [g0; g1]
       /\ g0 == derivative_formula 0 0 1 0 [[1; 0]; [0; 1]] [1; 1]
       /\ g1 == derivative_formula 0 0 0 1 [[1; 0]; [0; 1]] [1; 1].
Proof.
  assert (H : has_shape [[1; 0]; [0; 1]] 2 2).
  { split; [reflexivity|]. repeat constructor. }
  split; [exact H|]. split; [reflexivity|].
  exact (grad_compute_loss_formula 0 0 [[1; 0]; [0; 1]] [1; 1] 1 H eq_refl).
Defined.


Lemma retrieval_assertion_tolerance_witness :
  let ρ : gmap string (value Z unit) :=
    <["target_params" := VFloat target_params]>
      (<["params" := VArray [1 # 2; 500001 # 1000000]]> ∅) in
  ρ !! "params" = Some (VArray [1 # 2; 500001 # 1000000])
  /\ ρ !! "target_params" = Some (VFloat target_params)
  /\ (exec_stmt (assert_adam Z unit) ρ = inr ρ
      <-> Forall (fun x => Qabs (x - (1 # 2)) <= 501 # 100000000)
                 [1 # 2; 500001 # 1000000]).
Proof.
  intros ρ.
  assert (Hp : ρ !! "params" = Some (VArray [1 # 2; 500001 # 1000000]))
    by reflexivity.
  assert (Ht : ρ !! "target_params" = Some (VFloat target_params))
    by reflexivity.
  split; [exact Hp|]. split; [exact Ht|].
  exact (proj1 (retrieval_assertion_tolerance Z unit ρ _ Hp Ht)).
Defined.

Lemma last_loop_computes_witness :
  let t := inject_hyperparams AtCall (fun _ => of_transform (toy_scale 1))
             "max_norm" (linear_schedule 1 0 99) in
  let ρ : gmap string (value Z unit) :=
    <["opt_state" := VState (init t None)]>
      (<["decaying_global_norm_tx" := VTransform t]> ∅) in
  ρ !! "decaying_global_norm_tx" = Some (VTransform t)
  /\ ρ !! "opt_state" = Some (VState (init t None))
  /\ exists s' ρ',
       feed t None 100 (init t None) = Some s'
       /\ exec_stmt (loop_inject Z unit) ρ = inr ρ'
       /\ ρ' !! "opt_state" = Some (VState s').
Proof.
  intros t ρ.
  assert (Ht : ρ !! "decaying_global_norm_tx" = Some (VTransform t))
    by reflexivity.
  assert (Hs : ρ !! "opt_state" = Some (VState (init t None))) by reflexivity.
  split; [exact Ht|]. split; [exact Hs|].
  destruct (feed t None 100 (init t None)) as [s'|] eqn:Hfeed;
    [|vm_compute in Hfeed; discriminate Hfeed].
  destruct (last_loop_computes Z unit ρ t _ s' Ht Hs Hfeed)
    as (ρ' & Hrun & Hstate & _).
  exists s', ρ'. split; [reflexivity|]. split; [exact Hrun|exact Hstate].
Defined.

(** ** Runs on concrete inputs *)

Example grad_at_origin :
  map Qred <$> grad_compute_loss [0; 0] [[1; 0]; [0; 1]]
                                 (gen_ys [[1; 0]; [0; 1]] target_params)
  = Some [- (1 # 4); - (1 # 4)].
Proof. vm_compute. reflexivity. Qed.

Example loss_at_origin :
  Qred <$> compute_loss [0; 0] [[1; 0]; [0; 1]]
                        (gen_ys [[1; 0]; [0; 1]] target_params)
  = Some (1 # 8).
Proof. vm_compute. reflexivity. Qed.

Example dot_shape_mismatch : dot [1; 2] [3 : Q] = None.
Proof. reflexivity. Qed.

Example linear_schedule_values :
  map (fun k => Qred (linear_schedule 1 0 99 k)) [0; 33; 98; 99; 100; 500]%nat
  = [1; 2 # 3; 1 # 99; 0; 0; 0].
Proof. vm_compute. reflexivity. Qed.

Example allclose_values :
  allclose [1 # 2; 500001 # 1000000] (1 # 2) = true
  /\ allclose [1 # 2; 49 # 100] (1 # 2) = false.
Proof. split; vm_compute; reflexivity. Qed.

(** A failed assertion ends the run: the assignment after it is not made. *)
Example failed_assertion_halts :
  exec (key := Z) (base_state := unit)
       [Assign "params" (Const Z unit (VArray [0; 0]));
        Assign "target_params" (Const Z unit (VFloat target_params));
        assert_adam Z unit;
        Assign "params" (Const Z unit (VArray [1 # 2; 1 # 2]))] ∅
  = inl (AssertionError retrieve_msg).
Proof. vm_compute. reflexivity. Qed.

(** The last cell of the notebook on the small instance, under both
    readings. *)
Example last_cell_runs (r : reading) :
  match exec (cell_inject Z unit (fun _ => toy_scale 1) r
              ++ [assert_start Z unit; loop_inject Z unit; assert_end Z unit]) ∅
  with
  | inr ρ => hyperparam_eq Z unit (Var Z unit "opt_state") "max_norm" 0 ρ
             = inr true
  | inl _ => False
  end.
Proof. destruct r; vm_compute; reflexivity. Qed.
